(** * HeySnipsDataset (wwdetect/wavenet/wavenet_loader.py)

    A shallow embedding of the batch loader: the record list, batch assembly
    with zero padding, pruning of the wakeword class, the order-dependent
    accessors and the reshuffle hook.

    Python objects that are shared by reference and mutated (the loader
    object, NumPy arrays, NumPy's global random state) live in an explicit
    [world]; every method is a computation in the state-and-exception monad
    [M] over that world, so that what a method leaves behind when it raises
    can be stated as well.

    - Feature arrays are two-dimensional arrays of [float32] cells on a
      heap, the padded batch is a three-dimensional array allocated by
      [np.zeros]; slice assignment follows NumPy's clamping and
      broadcasting rules.
    - [keep_ratio] is a binary64 float; [int(keep_ratio * num_wakewords)]
      is the IEEE product, rounded to nearest even, then truncated.
    - [np.random.shuffle] is the swap loop NumPy runs on a Python list; the
      source of randomness is an arbitrary sequence of bounded draws. *)

From Stdlib Require Import ZArith List Bool Lia SpecFloat.
From stdpp Require Import base tactics option list numbers strings.

Open Scope Z_scope.

(** ** Exceptions and results *)

Inductive exn :=
  | IndexError
  | ValueError
  | OverflowError
  | AssertionError
  | ZeroDivisionError
  | TypeError.

Inductive result (A : Type) :=
  | Ok (a : A)
  | Raise (e : exn).
Arguments Ok {A} a.
Arguments Raise {A} e.

(** ** Floating-point values

    [np.float32] cells and the Python float [keep_ratio] are IEEE 754 values
    in the representation of [SpecFloat]; binary64 is [prec = 53],
    [emax = 1024]. *)

Definition float32 := spec_float.
Definition float64 := spec_float.

Definition zero32 : float32 := S754_zero false.

Definition b64_mul : float64 -> float64 -> float64 := SFmul 53 1024.
Definition b64_of_Z (n : Z) : float64 := binary_normalize 53 1024 n 0 false.

Definition b64_zero : float64 := S754_zero false.
Definition b64_one : float64 := S754_finite false 4503599627370496 (-52).

Definition b64_half : float64 := S754_finite false 4503599627370496 (-53).
Definition b64_two : float64 := S754_finite false 4503599627370496 (-51).

(** 2^1023, a finite float whose product with 3 is not. *)
Definition b64_huge : float64 := S754_finite false 4503599627370496 971.

(** A value that a Python float can actually hold: a finite one has the
    canonical mantissa and exponent of binary64. *)
Definition b64_valid (x : float64) : bool := valid_binary 53 1024 x.

(** [x <= y] and [x < y] on Python floats. *)
Definition b64_le (x y : float64) : bool := SFleb x y.
Definition b64_lt (x y : float64) : bool := SFltb x y.

(** [float(n)] for a Python int, as done by [float.__mul__] before it
    multiplies: correctly rounded, [OverflowError] when out of range. *)
Definition py_float_of_int (n : Z) : result float64 :=
  match b64_of_Z n with
  | S754_infinity _ => Raise OverflowError
  | f => Ok f
  end.

(** [int(x)] for a Python float: truncation toward zero. *)
Definition py_int (x : float64) : result Z :=
  match x with
  | S754_nan => Raise ValueError
  | S754_infinity _ => Raise OverflowError
  | S754_zero _ => Ok 0
  | S754_finite s m e =>
      let a := match e with
               | Zneg p => Z.shiftr (Zpos m) (Zpos p)
               | _ => Z.shiftl (Zpos m) e
               end in
      Ok (if s then - a else a)
  end.

(** [int(keep_ratio * num_wakewords)] *)
Definition keep_count (keep_ratio : float64) (num_wakewords : Z) : result Z :=
  match py_float_of_int num_wakewords with
  | Ok f => py_int (b64_mul keep_ratio f)
  | Raise e => Raise e
  end.

(** ** Python list operations *)

Section PyList.
Context {A : Type}.

(** [l[i]]: negative indices count from the end. *)
Definition py_index (l : list A) (i : Z) : option nat :=
  let n := Z.of_nat (length l) in
  if (0 <=? i) && (i <? n) then Some (Z.to_nat i)
  else if (- n <=? i) && (i <? 0) then Some (Z.to_nat (n + i))
  else None.

Definition py_getitem (l : list A) (i : Z) : result A :=
  match py_index l i with
  | Some k => match l !! k with Some x => Ok x | None => Raise IndexError end
  | None => Raise IndexError
  end.

(** [del l[i]] *)
Definition py_delitem (l : list A) (i : Z) : result (list A) :=
  match py_index l i with
  | Some k => Ok (delete k l)
  | None => Raise IndexError
  end.

(** [l[:k]]: the bound is clamped to [0 .. len(l)], a negative bound
    counts from the end. *)
Definition py_slice_to (l : list A) (k : Z) : list A :=
  let n := Z.of_nat (length l) in
  let k' := if k <? 0 then Z.max 0 (n + k) else Z.min k n in
  take (Z.to_nat k') l.

(** [x[i], x[j] = x[j], x[i]] *)
Definition py_swap (x : list A) (i j : nat) : list A :=
  match x !! i, x !! j with
  | Some a, Some b => <[j:=a]> (<[i:=b]> x)
  | _, _ => x
  end.
End PyList.

(** [np.arange(a, b)] for integers, also used for [range(a, b)]: the
    integers from [a] up to [b - 1]. For [range] this is exact. NumPy builds
    the array at once and with machine integers; it holds these elements
    when both bounds are int64 values and the array can be allocated (see
    [arange_is_int64]), which is the case for every index range that lies
    within a record list. *)
Definition np_arange (a b : Z) : list Z :=
  map (fun k => a + Z.of_nat k) (seq 0 (Z.to_nat (b - a))).

(** [max(l)] for a list of ints; [ValueError] on the empty list. *)
Definition py_max (l : list nat) : result nat :=
  match l with
  | [] => Raise ValueError
  | x :: l' => Ok (foldl Nat.max x l')
  end.

(** ** NumPy arrays

    A two-dimensional array carries its shape next to its rows, since an
    array without rows still has a width. *)

Record ndarray2 := {
  shape0 : nat;
  shape1 : nat;
  rows : list (list float32)
}.

Record ndarray3 := {
  dim0 : nat;
  dim1 : nat;
  dim2 : nat;
  slots : list (list (list float32))
}.

Definition wf_array2 (a : ndarray2) : Prop :=
  length (rows a) = shape0 a /\ Forall (fun r => length r = shape1 a) (rows a).

Definition wf_array3 (a : ndarray3) : Prop :=
  length (slots a) = dim0 a /\
  Forall (fun s => length s = dim1 a /\ Forall (fun r => length r = dim2 a) s)
         (slots a).

Definition get2 (a : ndarray2) (r c : nat) : option float32 :=
  rows a !! r ≫= fun row => row !! c.

Definition get3 (a : ndarray3) (i r c : nat) : option float32 :=
  slots a !! i ≫= fun s => s !! r ≫= fun row => row !! c.

(** [np.zeros((n, m, k), dtype=np.float32)] *)
Definition np_zeros3 (n m k : nat) : ndarray3 :=
  {| dim0 := n; dim1 := m; dim2 := k;
     slots := replicate n (replicate m (replicate k zero32)) |}.

(** [np.expand_dims(a, 0)] *)
Definition np_expand_dims0 (a : ndarray2) : ndarray3 :=
  {| dim0 := 1; dim1 := shape0 a; dim2 := shape1 a; slots := [rows a] |}.

(** Broadcasting of one axis of the assigned value against the target:
    [Some true] when the axis has extent 1 and is repeated, [Some false]
    when the extents agree, [None] when they cannot be broadcast. *)
Definition broadcast_axis (src dst : nat) : option bool :=
  if Nat.eqb src dst then Some false
  else if Nat.eqb src 1 then Some true
  else None.

Definition stretch {A : Type} (rep : bool) (n : nat) (l : list A) : list A :=
  if rep then match l with x :: _ => replicate n x | [] => [] end else l.

(** Overwrite the first [n] positions of [old] with [new]. *)
Definition overwrite {A : Type} (n : nat) (new old : list A) : list A :=
  take n new ++ drop n old.

(** [a[idx, :hi1, :hi2] = v] for a three-dimensional [a] and [v]. The
    slices are clamped to the extents of [a]; [v] loses its leading axis of
    extent 1 and is broadcast against the selected region. *)
Definition np_setitem3 (a : ndarray3) (idx : Z) (hi1 hi2 : nat) (v : ndarray3)
  : result ndarray3 :=
  match py_index (slots a) idx with
  | None => Raise IndexError
  | Some i =>
      let tr := Nat.min hi1 (dim1 a) in
      let tc := Nat.min hi2 (dim2 a) in
      match slots v, broadcast_axis (dim1 v) tr, broadcast_axis (dim2 v) tc with
      | [src], Some rep1, Some rep2 =>
          let src' := stretch rep1 tr (map (stretch rep2 tc) src) in
          match slots a !! i with
          | Some old =>
              let new := overwrite tr (zip_with (overwrite tc) src' old) old in
              Ok {| dim0 := dim0 a; dim1 := dim1 a; dim2 := dim2 a;
                    slots := <[i:=new]> (slots a) |}
          | None => Raise IndexError
          end
      | _, _, _ => Raise ValueError
      end
  end.

(** ** The world: heap of arrays, NumPy's global random state, the loader *)

Inductive ndarray :=
  | Arr2 (a : ndarray2)
  | Arr3 (a : ndarray3).

(** Addresses of heap objects. *)
Abbreviation loc := nat (only parsing).

(** One element of [self.dataset]: the dict built by [preload_data]. The
    feature array is an object on the heap, referred to by its address. *)
Record entry := {
  file_name : string;
  label : Z;
  start_speech : Z;
  end_speech : Z;
  features : loc
}.

Record HeySnipsDataset := {
  dataset : list entry;
  num_wakewords : Z;
  num_features : Z;
  batch_size : Z;
  num_batches : Z;
  shuffle : bool
}.

(** The bit generator behind [np.random]: the bounded draws it will hand
    out, and how many it has handed out so far. *)
Record bitgen := {
  draws : nat -> nat;
  cursor : nat
}.

Record world := {
  heap : list ndarray;
  np_random : bitgen;
  self : HeySnipsDataset
}.

Definition M (A : Type) : Type := world -> world * result A.

Definition ret {A} (a : A) : M A := fun w => (w, Ok a).

Definition bind {A B} (c : M A) (k : A -> M B) : M B :=
  fun w => match c w with
           | (w', Ok a) => k a w'
           | (w', Raise e) => (w', Raise e)
           end.

Definition raise {A} (e : exn) : M A := fun w => (w, Raise e).

Definition lift {A} (r : result A) : M A := fun w => (w, r).

Definition gets {A} (f : HeySnipsDataset -> A) : M A :=
  fun w => (w, Ok (f (self w))).

(** The world after [self] has been updated by [f]. *)
Definition with_self (f : HeySnipsDataset -> HeySnipsDataset) (w : world) : world :=
  {| heap := heap w; np_random := np_random w; self := f (self w) |}.

Definition modify (f : HeySnipsDataset -> HeySnipsDataset) : M unit :=
  fun w => (with_self f w, Ok tt).

Declare Scope py_scope.
Delimit Scope py_scope with py.
Notation "x <- c ;; k" := (bind c (fun x => k))
  (at level 100, c at next level, right associativity) : py_scope.
Notation "c ;;; k" := (bind c (fun _ => k))
  (at level 100, right associativity) : py_scope.
Open Scope py_scope.

(** [for x in l: body(x)] *)
Fixpoint for_ {A} (l : list A) (body : A -> M unit) : M unit :=
  match l with
  | [] => ret tt
  | x :: l' => body x ;;; for_ l' body
  end.

(** A loop that threads a local variable through its iterations. *)
Fixpoint for_acc {A B} (l : list A) (acc : B) (body : B -> A -> M B) : M B :=
  match l with
  | [] => ret acc
  | x :: l' => acc' <- body acc x ;; for_acc l' acc' body
  end.

(** [[f(x) for x in l]] *)
Fixpoint comprehension {A B} (l : list A) (f : A -> M B) : M (list B) :=
  match l with
  | [] => ret []
  | x :: l' => y <- f x ;; ys <- comprehension l' f ;; ret (y :: ys)
  end.

(** Field assignments [self.f = v]. *)
Definition set_dataset (d : list entry) (s : HeySnipsDataset) :=
  {| dataset := d; num_wakewords := num_wakewords s;
     num_features := num_features s; batch_size := batch_size s;
     num_batches := num_batches s; shuffle := shuffle s |}.
Definition set_num_wakewords (n : Z) (s : HeySnipsDataset) :=
  {| dataset := dataset s; num_wakewords := n;
     num_features := num_features s; batch_size := batch_size s;
     num_batches := num_batches s; shuffle := shuffle s |}.
Definition set_num_features (n : Z) (s : HeySnipsDataset) :=
  {| dataset := dataset s; num_wakewords := num_wakewords s;
     num_features := n; batch_size := batch_size s;
     num_batches := num_batches s; shuffle := shuffle s |}.
Definition set_batch_size (n : Z) (s : HeySnipsDataset) :=
  {| dataset := dataset s; num_wakewords := num_wakewords s;
     num_features := num_features s; batch_size := n;
     num_batches := num_batches s; shuffle := shuffle s |}.
Definition set_num_batches (n : Z) (s : HeySnipsDataset) :=
  {| dataset := dataset s; num_wakewords := num_wakewords s;
     num_features := num_features s; batch_size := batch_size s;
     num_batches := n; shuffle := shuffle s |}.
Definition set_shuffle (b : bool) (s : HeySnipsDataset) :=
  {| dataset := dataset s; num_wakewords := num_wakewords s;
     num_features := num_features s; batch_size := batch_size s;
     num_batches := num_batches s; shuffle := b |}.

(** Heap access. *)
Definition set_heap (h : list ndarray) (w : world) : world :=
  {| heap := h; np_random := np_random w; self := self w |}.

Definition alloc (a : ndarray) : M loc :=
  fun w => (set_heap (heap w ++ [a]) w, Ok (length (heap w))).

Definition read2 (l : loc) : M ndarray2 :=
  fun w => match heap w !! l with
           | Some (Arr2 a) => (w, Ok a)
           | _ => (w, Raise TypeError)
           end.

Definition read3 (l : loc) : M ndarray3 :=
  fun w => match heap w !! l with
           | Some (Arr3 a) => (w, Ok a)
           | _ => (w, Raise TypeError)
           end.

Definition write (l : loc) (a : ndarray) : M unit :=
  fun w => (set_heap (<[l:=a]> (heap w)) w, Ok tt).

(** [self.dataset[i]] *)
Definition dataset_at (i : Z) : M entry :=
  d <- gets dataset ;; lift (py_getitem d i).

(** [a // b] on Python ints. *)
Definition py_floordiv (a b : Z) : result Z :=
  if b =? 0 then Raise ZeroDivisionError else Ok (a / b).

(** ** NumPy's shuffle of a Python list

    [np.random.shuffle(x)] on a list walks [i] from [len(x) - 1] down to 1,
    draws [j] in [0 .. i] and swaps [x[i]] with [x[j]]. *)

Definition set_np_random (g : bitgen) (w : world) : world :=
  {| heap := heap w; np_random := g; self := self w |}.

Definition random_interval (max : nat) : M nat :=
  fun w =>
    let g := np_random w in
    (set_np_random {| draws := draws g; cursor := S (cursor g) |} w,
     Ok (draws g (cursor g) mod (S max))%nat).

Fixpoint shuffle_from {A} (i : nat) (x : list A) : M (list A) :=
  match i with
  | O => ret x
  | S i' => j <- random_interval i ;; shuffle_from i' (py_swap x i j)
  end.

Definition np_random_shuffle {A} (x : list A) : M (list A) :=
  shuffle_from (length x - 1) x.

(** ** The loader's methods *)

Definition __len__ : M Z := gets num_batches.

Definition number_of_examples : M Z :=
  d <- gets dataset ;; ret (Z.of_nat (length d)).

Definition number_of_wakewords : M Z := gets num_wakewords.

(** [enumerate(l, start)] *)
Fixpoint enumerate_from {A} (start : Z) (l : list A) : list (Z * A) :=
  match l with
  | [] => []
  | x :: l' => (start, x) :: enumerate_from (start + 1) l'
  end.

Definition enumerate {A} (l : list A) : list (Z * A) := enumerate_from 0 l.

Definition pad_features (X : list loc) : M loc :=
  lengths <- comprehension X (fun x => a <- read2 x ;; ret (shape0 a)) ;;
  max_length <- lift (py_max lengths) ;;
  x0 <- lift (py_getitem X 0) ;;
  a0 <- read2 x0 ;;
  X_padded <- alloc (Arr3 (np_zeros3 (length X) max_length (shape1 a0))) ;;
  for_ (enumerate X) (fun '(idx, features) =>
    a <- read2 features ;;
    let features := np_expand_dims0 a in
    P <- read3 X_padded ;;
    P' <- lift (np_setitem3 P idx (dim1 features) (dim2 features) features) ;;
    write X_padded (Arr3 P')) ;;;
  ret X_padded.

Definition __getitem__ (index : Z) : M (loc * list Z) :=
  bs <- gets batch_size ;;
  let batch_start := bs * index in
  let batch_idxs := np_arange batch_start (batch_start + bs) in
  X <- comprehension batch_idxs (fun i => e <- dataset_at i ;; ret (features e)) ;;
  y <- comprehension batch_idxs (fun i => e <- dataset_at i ;; ret (label e)) ;;
  X <- pad_features X ;;
  ret (X, y).

(** Lines 43-46: the indices of the wakewords, in ascending order. *)
Definition find_wakeword_idxs : M (list Z) :=
  n <- number_of_examples ;;
  for_acc (np_arange 0 n) [] (fun wakeword_idxs i =>
    e <- dataset_at i ;;
    if label e =? 1 then ret (wakeword_idxs ++ [i]) else ret wakeword_idxs).

(** Lines 50-56: move the wakewords out of [self.dataset], last index
    first. *)
Definition move_wakewords (wakeword_idxs : list Z) : M (list entry) :=
  for_acc (rev wakeword_idxs) [] (fun wakewords i =>
    e <- dataset_at i ;;
    d <- gets dataset ;;
    d' <- lift (py_delitem d i) ;;
    modify (set_dataset d') ;;;
    ret (wakewords ++ [e])).

Definition prune_wakewords (keep_ratio : float64) : M unit :=
  wakeword_idxs <- find_wakeword_idxs ;;
  wakewords <- move_wakewords wakeword_idxs ;;
  wakewords <- np_random_shuffle wakewords ;;
  nw <- gets num_wakewords ;;
  k <- lift (keep_count keep_ratio nw) ;;
  d <- gets dataset ;;
  modify (set_dataset (d ++ py_slice_to wakewords k)) ;;;
  d <- gets dataset ;;
  d <- np_random_shuffle d ;;
  modify (set_dataset d) ;;;
  n <- number_of_examples ;;
  bs <- gets batch_size ;;
  nb <- lift (py_floordiv n bs) ;;
  modify (set_num_batches nb).

Definition assert_ (b : bool) : M unit :=
  if b then ret tt else raise AssertionError.

Definition get_labels : M (list Z) :=
  sh <- gets shuffle ;;
  assert_ (negb sh) ;;;
  n <- number_of_examples ;;
  comprehension (np_arange 0 n) (fun i => e <- dataset_at i ;; ret (label e)).

Definition get_filenames : M (list string) :=
  sh <- gets shuffle ;;
  assert_ (negb sh) ;;;
  n <- number_of_examples ;;
  comprehension (np_arange 0 n) (fun i => e <- dataset_at i ;; ret (file_name e)).

Definition on_epoch_end : M unit :=
  sh <- gets shuffle ;;
  if sh then
    d <- gets dataset ;;
    d <- np_random_shuffle d ;;
    modify (set_dataset d)
  else ret tt.

(** The feature store read by [preload_data]: one group per key, in the
    store's iteration order, with its attributes and its payload already
    converted to [float32]. *)
Record h5group := {
  key : string;
  is_hotword : Z;
  speech_start_ts : Z;
  speech_end_ts : Z;
  payload : ndarray2
}.

Definition np_uint8 (n : Z) : Z := n mod 256.
Definition np_int16 (n : Z) : Z := (n + 32768) mod 65536 - 32768.

Definition preload_data (data_file : list h5group) : M (list entry * Z) :=
  modify (set_dataset []) ;;;
  modify (set_num_wakewords 0) ;;;
  for_ data_file (fun g =>
    f <- alloc (Arr2 (payload g)) ;;
    d <- gets dataset ;;
    modify (set_dataset (d ++ [{| file_name := key g;
                                   label := np_uint8 (is_hotword g);
                                   start_speech := np_int16 (speech_start_ts g);
                                   end_speech := np_int16 (speech_end_ts g);
                                   features := f |}])) ;;;
    if is_hotword g =? 1 then
      nw <- gets num_wakewords ;; modify (set_num_wakewords (nw + 1))
    else ret tt) ;;;
  d <- gets dataset ;;
  nw <- gets num_wakewords ;;
  ret (d, nw).

Definition __init__ (data_file : list h5group) (batch_size num_features : Z)
    (shuffle : bool) : M unit :=
  loaded <- preload_data data_file ;;
  modify (set_dataset (fst loaded)) ;;;
  modify (set_num_wakewords (snd loaded)) ;;;
  modify (set_num_features num_features) ;;;
  modify (set_batch_size batch_size) ;;;
  n <- number_of_examples ;;
  nb <- lift (py_floordiv n batch_size) ;;
  modify (set_num_batches nb) ;;;
  modify (set_shuffle shuffle).

(** Lines 123-126, the script's entry point: the loader is built from the
    store with the defaults of [__init__], batches of 32, 40 features, no
    shuffling. *)
Definition main (data_file : list h5group) : M unit :=
  __init__ data_file 32 40 false.

(** ** Vocabulary of the statements *)

(** The two-dimensional array stored at an address, if there is one. *)
Definition array_at (w : world) (l : loc) : option ndarray2 :=
  match heap w !! l with
  | Some (Arr2 a) => Some a
  | _ => None
  end.

Definition wf_array2b (a : ndarray2) : bool :=
  Nat.eqb (length (rows a)) (shape0 a) &&
  forallb (fun r => Nat.eqb (length r) (shape1 a)) (rows a).

(** Every record of the loader refers to a two-dimensional array whose rows
    agree with its shape. *)
Definition wf_world (w : world) : bool :=
  forallb (fun e => match array_at w (features e) with
                    | Some a => wf_array2b a
                    | None => false
                    end) (dataset (self w)).

(** The records of batch [index]: positions
    [batch_size * index .. batch_size * index + batch_size - 1]. *)
Definition batch (w : world) (index : Z) : list entry :=
  let bs := batch_size (self w) in
  take (Z.to_nat bs) (drop (Z.to_nat (bs * index)) (dataset (self w))).

(** No record of the batch is wider than the first record of the batch. *)
Definition widths_fit (w : world) (index : Z) : bool :=
  match batch w index with
  | [] => true
  | e0 :: _ =>
      match array_at w (features e0) with
      | None => false
      | Some a0 =>
          forallb (fun e => match array_at w (features e) with
                            | Some a => Nat.leb (shape1 a) (shape1 a0)
                            | None => false
                            end) (batch w index)
      end
  end.

(** One slot of the padded tensor: the rows of [a], each filled up with
    zeros to width [W], followed by zero rows up to length [L]. *)
Definition pad_slot (L W : nat) (a : ndarray2) : list (list float32) :=
  resize L (replicate W zero32) (map (resize W zero32) (rows a)).

Definition is_wakeword (e : entry) : bool := label e =? 1.

(** The number of positive-class records in a list. *)
Definition count_wakewords (d : list entry) : Z :=
  Z.of_nat (length (filter (fun e => is_wakeword e = true) d)).

(** The elements of a list are pairwise in strictly descending order. *)
Fixpoint descending (l : list Z) : Prop :=
  match l with
  | [] => True
  | x :: l' => Forall (fun y => y < x) l' /\ descending l'
  end.

(** A slot as [np.zeros] leaves it. *)
Definition zero_slot (L W : nat) : list (list float32) :=
  replicate L (replicate W zero32).

(** An array that the padding loop can copy into a slot of [L] rows and
    [W] columns. *)
Definition fits (L W : nat) (a : ndarray2) : Prop :=
  wf_array2 a /\ (shape0 a <= L)%nat /\
  ((shape1 a <= W)%nat \/ shape1 a = 1%nat).

(** The feature arrays of the records of a batch. *)
Definition batch_arrays (w : world) (index : Z) : list ndarray2 :=
  omap (fun e => array_at w (features e)) (batch w index).

(** A computation preserves a relation between the world it starts in and
    the world it leaves, whether it returns or raises. *)
Definition preserves (R : world -> world -> Prop) {A} (c : M A) : Prop :=
  forall w, R w (fst (c w)).

(** What a method leaves alone when it only allocates: the loader object,
    the random state and every heap cell below address [n]. *)
Definition frame (n : nat) (w w' : world) : Prop :=
  self w' = self w /\ np_random w' = np_random w /\
  (length (heap w) <= length (heap w'))%nat /\
  forall l, (l < n)%nat -> heap w' !! l = heap w !! l.

(** Some bit was shifted out of the mantissa of a shift record. *)
Definition inexact (mrs : shr_record) : bool := shr_r mrs || shr_s mrs.

(** The positions of the wakewords of [d], counted from [start]. *)
Fixpoint wakeword_idxs_from (start : nat) (d : list entry) : list nat :=
  match d with
  | [] => []
  | e :: d' =>
      if is_wakeword e then start :: wakeword_idxs_from (S start) d'
      else wakeword_idxs_from (S start) d'
  end.

(** The positive-class records of a list, and the others, in list order. *)
Definition wakewords_of (d : list entry) : list entry :=
  filter (fun e => is_wakeword e = true) d.

Definition others_of (d : list entry) : list entry :=
  filter (fun e => is_wakeword e <> true) d.

(** The records that [preload_data] builds from a store when the heap has
    [base] objects: one per group, in store order, each referring to a
    freshly allocated copy of the payload. *)
Fixpoint load_entries (base : nat) (store : list h5group) : list entry :=
  match store with
  | [] => []
  | g :: store' =>
      {| file_name := key g;
         label := np_uint8 (is_hotword g);
         start_speech := np_int16 (speech_start_ts g);
         end_speech := np_int16 (speech_end_ts g);
         features := base |} :: load_entries (S base) store'
  end.

(** The number of groups whose [is_hotword] attribute equals 1. *)
Definition count_hotwords (store : list h5group) : Z :=
  Z.of_nat (length (filter (fun g => is_hotword g = 1) store)).

(** The loader with another record list, everything else as in [w]. *)
Definition with_dataset (d : list entry) (w : world) : world :=
  {| heap := heap w; np_random := np_random w;
     self := set_dataset d (self w) |}.

(** The relation preserved by computations that only read. *)
Definition unchanged (w w' : world) : Prop := w' = w.

(** Address [l] holds a three-dimensional array. *)
Definition holds_tensor (l : loc) (w : world) : Prop :=
  exists P, heap w !! l = Some (Arr3 P).

(** What the padding loop preserves while it fills the tensor at [l]. *)
Definition tensor_frame (l : loc) (w w' : world) : Prop :=
  frame l w w' /\ (holds_tensor l w -> holds_tensor l w').

(** The index ranges that [np.arange] turns into an int64 array holding the
    elements of [np_arange]: both bounds are int64 values and there are at
    most 2^20 elements, a size that stands for "can be allocated". Beyond
    that NumPy switches to another element type or refuses the size, so
    that [__getitem__] raises before it reaches the record list. *)
Definition arange_is_int64 (a b : Z) : bool :=
  (- 2 ^ 63 <=? a) && (b <? 2 ^ 63) && (b - a <=? 2 ^ 20).

(** The records that the index range of [__getitem__] selects for a
    negative [index]: Python counts negative positions from the end of the
    list. *)
Definition batch_from_end (w : world) (index : Z) : list entry :=
  let bs := batch_size (self w) in
  let d := dataset (self w) in
  take (Z.to_nat bs) (drop (Z.to_nat (Z.of_nat (length d) + bs * index)) d).

(** No record of [es] is wider than the first of them. *)
Definition widths_fit_in (w : world) (es : list entry) : bool :=
  match es with
  | [] => true
  | e0 :: _ =>
      match array_at w (features e0) with
      | None => false
      | Some a0 =>
          forallb (fun e => match array_at w (features e) with
                            | Some a => Nat.leb (shape1 a) (shape1 a0)
                            | None => false
                            end) es
      end
  end.

(** The payloads of a store are arrays whose rows agree with their shape. *)
Definition wf_store (store : list h5group) : bool :=
  forallb (fun g => wf_array2b (payload g)) store.

(** The record built from group [g] when its payload goes to address [l]. *)
Definition entry_of (l : loc) (g : h5group) : entry :=
  {| file_name := key g;
     label := np_uint8 (is_hotword g);
     start_speech := np_int16 (speech_start_ts g);
     end_speech := np_int16 (speech_end_ts g);
     features := l |}.

(** A computation is indifferent to an update [f] of the loader's fields:
    run after the update it gives the same result, and leaves the world it
    would have left, updated. *)
Definition indifferent (f : HeySnipsDataset -> HeySnipsDataset) {A} (c : M A)
  : Prop :=
  forall w, c (with_self f w) = (with_self f (fst (c w)), snd (c w)).

(** The random state after [n] more draws. *)
Definition advance (n : nat) (g : bitgen) : bitgen :=
  {| draws := draws g; cursor := (cursor g + n)%nat |}.

(** ** A small store on which the statements are exercised *)

Definition one32 : float32 := S754_finite false 8388608 (-23).
Definition two32 : float32 := S754_finite false 8388608 (-22).

Definition constant_array (r c : nat) (x : float32) : ndarray2 :=
  {| shape0 := r; shape1 := c; rows := replicate r (replicate c x) |}.

Definition group (k : string) (hot : Z) (a : ndarray2) : h5group :=
  {| key := k; is_hotword := hot; speech_start_ts := 0; speech_end_ts := 100;
     payload := a |}.

Definition blank_world : world :=
  {| heap := [];
     np_random := {| draws := fun n => (7 * n + 3)%nat; cursor := 0 |};
     self := {| dataset := []; num_wakewords := 0; num_features := 0;
                batch_size := 0; num_batches := 0; shuffle := false |} |}.

(** Five records of width 2 and lengths 1, 2, 3, 1, 2; three wakewords. *)
Definition sample_store : list h5group :=
  [ group "a" 0 (constant_array 1 2 one32);
    group "b" 1 (constant_array 2 2 two32);
    group "c" 1 (constant_array 3 2 one32);
    group "d" 0 (constant_array 1 2 two32);
    group "e" 1 (constant_array 2 2 one32) ].

Definition sample_world : world :=
  fst (__init__ sample_store 2 40 false blank_world).

(** Ten records with the wakewords at positions 2, 5 and 7. *)
Definition ten_store : list h5group :=
  [ group "r0" 0 (constant_array 1 2 one32);
    group "r1" 0 (constant_array 1 2 one32);
    group "r2" 1 (constant_array 1 2 one32);
    group "r3" 0 (constant_array 1 2 one32);
    group "r4" 0 (constant_array 1 2 one32);
    group "r5" 1 (constant_array 1 2 one32);
    group "r6" 0 (constant_array 1 2 one32);
    group "r7" 1 (constant_array 1 2 one32);
    group "r8" 0 (constant_array 1 2 one32);
    group "r9" 0 (constant_array 1 2 one32) ].

Definition ten_world : world :=
  fst (__init__ ten_store 4 40 false blank_world).

(** Two records of two rows each, the second wider than the first. *)
Definition ragged_store : list h5group :=
  [ group "narrow" 0 (constant_array 2 2 one32);
    group "wide" 1 (constant_array 2 3 two32) ].

Definition ragged_world : world :=
  fst (__init__ ragged_store 2 40 false blank_world).

(** The five records again, on a loader that reshuffles between epochs. *)
Definition shuffling_world : world :=
  fst (__init__ sample_store 2 40 true blank_world).

(** Two records of the same shape. *)
Definition uniform_store : list h5group :=
  [ group "u0" 0 (constant_array 2 3 one32);
    group "u1" 1 (constant_array 2 3 two32) ].

Definition uniform_world : world :=
  fst (__init__ uniform_store 2 40 false blank_world).

(** * Properties *)

(** ** Running computations *)

Lemma bind_ok {A B} (c : M A) (k : A -> M B) w w' a :
  c w = (w', Ok a) -> bind c k w = k a w'.
Proof. intros H. unfold bind. now rewrite H. Qed.

Lemma bind_raise {A B} (c : M A) (k : A -> M B) w w' e :
  c w = (w', Raise e) -> bind c k w = (w', Raise e).
Proof. intros H. unfold bind. now rewrite H. Qed.

Lemma bind_gets {A B} (f : HeySnipsDataset -> A) (k : A -> M B) w :
  bind (gets f) k w = k (f (self w)) w.
Proof. reflexivity. Qed.

Lemma bind_ret {A B} (a : A) (k : A -> M B) w : bind (ret a) k w = k a w.
Proof. reflexivity. Qed.

Lemma bind_lift_ok {A B} (a : A) (k : A -> M B) w :
  bind (lift (Ok a)) k w = k a w.
Proof. reflexivity. Qed.

Lemma bind_lift_raise {A B} (e : exn) (k : A -> M B) w :
  bind (lift (Raise e)) k w = (w, Raise e).
Proof. reflexivity. Qed.

Lemma bind_modify {B} (f : HeySnipsDataset -> HeySnipsDataset) (k : unit -> M B) w :
  bind (modify f) k w = k tt (with_self f w).
Proof. reflexivity. Qed.

Lemma bind_number_of_examples {B} (k : Z -> M B) w :
  bind number_of_examples k w = k (Z.of_nat (length (dataset (self w)))) w.
Proof. reflexivity. Qed.

Lemma bind_inv {A B} (c : M A) (k : A -> M B) w w' r :
  bind c k w = (w', r) ->
  (exists w1 a, c w = (w1, Ok a) /\ k a w1 = (w', r)) \/
  (exists e, c w = (w', Raise e) /\ r = Raise e).
Proof.
  unfold bind. destruct (c w) as [w1 [a|e]]; intros H.
  - left. eauto.
  - right. exists e. now inversion H.
Qed.

(** ** Relations preserved by computations *)

Section Preserves.
Variable R : world -> world -> Prop.
Hypothesis R_refl : forall w, R w w.
Hypothesis R_trans : forall w1 w2 w3, R w1 w2 -> R w2 w3 -> R w1 w3.

Lemma preserves_ret {A} (a : A) : preserves R (ret a).
Proof. intros w. apply R_refl. Qed.

Lemma preserves_raise {A} (e : exn) : preserves R (@raise A e).
Proof. intros w. apply R_refl. Qed.

Lemma preserves_lift {A} (r : result A) : preserves R (lift r).
Proof. intros w. apply R_refl. Qed.

Lemma preserves_gets {A} (f : HeySnipsDataset -> A) : preserves R (gets f).
Proof. intros w. apply R_refl. Qed.

Lemma preserves_read2 (l : loc) : preserves R (read2 l).
Proof.
  intros w. unfold read2. destruct (heap w !! l) as [[a|a]|]; apply R_refl.
Qed.

Lemma preserves_read3 (l : loc) : preserves R (read3 l).
Proof.
  intros w. unfold read3. destruct (heap w !! l) as [[a|a]|]; apply R_refl.
Qed.

Lemma preserves_bind {A B} (c : M A) (k : A -> M B) :
  preserves R c -> (forall a, preserves R (k a)) -> preserves R (bind c k).
Proof.
  intros Hc Hk w. unfold bind. specialize (Hc w).
  destruct (c w) as [w1 [a|e]]; cbn in *; [|exact Hc].
  eapply R_trans; [exact Hc|apply Hk].
Qed.

Lemma preserves_for {A} (l : list A) (body : A -> M unit) :
  (forall x, preserves R (body x)) -> preserves R (for_ l body).
Proof.
  intros Hb. induction l as [|x l IH]; cbn [for_].
  - apply preserves_ret.
  - apply preserves_bind; auto.
Qed.

Lemma preserves_comprehension {A B} (l : list A) (f : A -> M B) :
  (forall x, preserves R (f x)) -> preserves R (comprehension l f).
Proof.
  intros Hf. induction l as [|x l IH]; cbn [comprehension].
  - apply preserves_ret.
  - apply preserves_bind; [auto|]. intros y.
    apply preserves_bind; [auto|]. intros ys. apply preserves_ret.
Qed.

Lemma preserves_dataset_at (i : Z) : preserves R (dataset_at i).
Proof.
  apply preserves_bind; [apply preserves_gets|]. intros d. apply preserves_lift.
Qed.
End Preserves.

(** ** Python indexing *)

Lemma py_index_nat {A} (l : list A) (i : nat) :
  (i < length l)%nat -> py_index l (Z.of_nat i) = Some i.
Proof.
  intros H. unfold py_index.
  replace (0 <=? Z.of_nat i) with true by (symmetry; apply Z.leb_le; lia).
  replace (Z.of_nat i <? Z.of_nat (length l)) with true
    by (symmetry; apply Z.ltb_lt; lia).
  cbn. now rewrite Nat2Z.id.
Qed.

Lemma py_getitem_nat {A} (l : list A) (i : nat) x :
  l !! i = Some x -> py_getitem l (Z.of_nat i) = Ok x.
Proof.
  intros H. unfold py_getitem.
  rewrite py_index_nat by (eapply lookup_lt_Some; eauto).
  now rewrite H.
Qed.

Lemma np_arange_length a b : length (np_arange a b) = Z.to_nat (b - a).
Proof. unfold np_arange. now rewrite length_map, length_seq. Qed.

Lemma np_arange_lookup a b (k : nat) :
  (k < Z.to_nat (b - a))%nat -> np_arange a b !! k = Some (a + Z.of_nat k).
Proof.
  intros H. unfold np_arange.
  rewrite list_lookup_fmap, lookup_seq_lt by exact H. reflexivity.
Qed.

(** ** Slice assignment into a zero slot *)

Lemma wf_array2b_spec a : wf_array2b a = true <-> wf_array2 a.
Proof.
  unfold wf_array2b, wf_array2.
  rewrite andb_true_iff, Nat.eqb_eq, forallb_forall, Forall_forall.
  split; intros [H1 H2]; split; auto; intros r Hr.
  - apply Nat.eqb_eq, H2. now apply list_elem_of_In.
  - apply Nat.eqb_eq, H2. now apply list_elem_of_In.
Qed.

Lemma overwrite_row (row : list float32) (W : nat) rep :
  broadcast_axis (length row) (Nat.min (length row) W) = Some rep ->
  overwrite (Nat.min (length row) W) (stretch rep (Nat.min (length row) W) row)
            (replicate W zero32)
  = resize W zero32 row.
Proof.
  unfold broadcast_axis, overwrite.
  destruct (Nat.eqb_spec (length row) (Nat.min (length row) W)) as [E|E].
  - intros [= <-]. cbn [stretch]. rewrite <- E.
    rewrite firstn_all, drop_replicate.
    symmetry. apply resize_ge. lia.
  - destruct (Nat.eqb_spec (length row) 1) as [E1|E1]; [|discriminate].
    intros [= <-].
    assert (W = 0)%nat as -> by lia.
    rewrite Nat.min_0_r. cbn. now rewrite resize_0.
Qed.

Lemma broadcast_axis_fits (w W : nat) :
  (w <= W)%nat \/ w = 1%nat -> is_Some (broadcast_axis w (Nat.min w W)).
Proof.
  intros H. unfold broadcast_axis.
  destruct (Nat.eqb_spec w (Nat.min w W)); [eauto|].
  destruct (Nat.eqb_spec w 1); [eauto|lia].
Qed.

Lemma broadcast_axis_misfit (w W : nat) :
  (W < w)%nat -> w <> 1%nat -> broadcast_axis w (Nat.min w W) = None.
Proof.
  intros H1 H2. unfold broadcast_axis.
  destruct (Nat.eqb_spec w (Nat.min w W)); [lia|].
  destruct (Nat.eqb_spec w 1); [lia|reflexivity].
Qed.

Lemma setitem3_zero_slot (P : ndarray3) (i : nat) (a : ndarray2) :
  wf_array2 a ->
  slots P !! i = Some (replicate (dim1 P) (replicate (dim2 P) zero32)) ->
  (shape0 a <= dim1 P)%nat ->
  (shape1 a <= dim2 P)%nat \/ shape1 a = 1%nat ->
  np_setitem3 P (Z.of_nat i) (shape0 a) (shape1 a) (np_expand_dims0 a)
  = Ok {| dim0 := dim0 P; dim1 := dim1 P; dim2 := dim2 P;
          slots := <[i:=pad_slot (dim1 P) (dim2 P) a]> (slots P) |}.
Proof.
  intros [Hlen Hrows] Hslot Ht Hw. unfold np_setitem3.
  rewrite py_index_nat by (eapply lookup_lt_Some; eauto).
  cbn [np_expand_dims0 slots dim1 dim2].
  rewrite (Nat.min_l _ _ Ht).
  unfold broadcast_axis at 1. rewrite Nat.eqb_refl.
  destruct (broadcast_axis_fits _ _ Hw) as [rep Hrep]. rewrite Hrep, Hslot.
  do 2 f_equal. unfold pad_slot. cbn [stretch].
  unfold overwrite at 1.
  rewrite drop_replicate.
  assert (zip_with (overwrite (Nat.min (shape1 a) (dim2 P)))
            (map (stretch rep (Nat.min (shape1 a) (dim2 P))) (rows a))
            (replicate (dim1 P) (replicate (dim2 P) zero32))
          = map (resize (dim2 P) zero32) (rows a)) as ->.
  { clear Hslot. revert Ht. rewrite <- Hlen. clear Hlen. generalize (dim1 P) as L.
    induction Hrows as [|row rs Hrow _ IH]; intros L HL; [reflexivity|].
    rewrite length_cons in HL. destruct L as [|L]; [lia|].
    cbn [map replicate zip_with]. f_equal.
    - rewrite <- Hrow in *. now apply overwrite_row.
    - apply IH. lia. }
  rewrite take_ge by (rewrite length_map; lia).
  rewrite resize_ge by (rewrite length_map; lia).
  now rewrite length_map, Hlen.
Qed.

(** ** The padding loop *)

Lemma set_heap_set_heap h h' w : set_heap h (set_heap h' w) = set_heap h w.
Proof. reflexivity. Qed.

Lemma pad_loop (h : list ndarray) (n L W : nat) (X : list loc)
    (arrs : list ndarray2) (rest : list (list (list float32))) :
  Forall2 (fun x a => h !! x = Some (Arr2 a)) X arrs ->
  Forall (fits L W) arrs ->
  forall (filled : list (list (list float32))) (w : world),
  heap w = h ++ [Arr3 {| dim0 := n; dim1 := L; dim2 := W;
                         slots := filled
                                  ++ replicate (length X) (zero_slot L W)
                                  ++ rest |}] ->
  for_ (enumerate_from (Z.of_nat (length filled)) X)
    (fun '(idx, features) =>
       a <- read2 features ;;
       let features := np_expand_dims0 a in
       P <- read3 (length h) ;;
       P' <- lift (np_setitem3 P idx (dim1 features) (dim2 features) features) ;;
       write (length h) (Arr3 P')) w
  = (set_heap (h ++ [Arr3 {| dim0 := n; dim1 := L; dim2 := W;
                             slots := filled ++ map (pad_slot L W) arrs
                                      ++ rest |}]) w,
     Ok tt).
Proof.
  induction 1 as [|x a X arrs Hx _ IH]; intros Hfit filled w Hw.
  - cbn in Hw |- *. unfold ret, set_heap. rewrite <- Hw. now destruct w.
  - apply Forall_cons in Hfit as [(Hwf & Ht & Hwd) Hfit].
    cbn [enumerate_from for_].
    set (P := {| dim0 := n; dim1 := L; dim2 := W;
                 slots := filled ++ replicate (length (x :: X)) (zero_slot L W)
                          ++ rest |}) in *.
    assert (Hr2 : read2 x w = (w, Ok a)).
    { unfold read2. rewrite Hw, lookup_app_l by (eapply lookup_lt_Some; eauto).
      now rewrite Hx. }
    assert (Hr3 : read3 (length h) w = (w, Ok P)).
    { unfold read3. now rewrite Hw, list_lookup_middle. }
    assert (Hset : np_setitem3 P (Z.of_nat (length filled)) (shape0 a) (shape1 a)
                     (np_expand_dims0 a)
                   = Ok {| dim0 := n; dim1 := L; dim2 := W;
                           slots := (filled ++ [pad_slot L W a])
                                    ++ replicate (length X) (zero_slot L W)
                                    ++ rest |}).
    { rewrite setitem3_zero_slot; auto.
      - subst P. cbn [dim0 dim1 dim2 slots length replicate]. do 2 f_equal.
        rewrite insert_app_r_alt by lia. rewrite Nat.sub_diag. cbn.
        now rewrite <- app_assoc.
      - subst P. cbn [dim1 dim2 slots length replicate app].
        now rewrite list_lookup_middle. }
    erewrite bind_ok; [|erewrite bind_ok by exact Hr2; cbn zeta;
      erewrite bind_ok by exact Hr3; cbn [np_expand_dims0 dim1 dim2];
      erewrite bind_ok by (unfold lift; rewrite Hset; reflexivity);
      reflexivity].
    replace (Z.of_nat (length filled) + 1)
      with (Z.of_nat (length (filled ++ [pad_slot L W a])))
      by (rewrite length_app; cbn; lia).
    rewrite (IH Hfit).
    + rewrite set_heap_set_heap. cbn [map]. now rewrite <- app_assoc.
    + cbn [set_heap heap]. rewrite Hw.
      rewrite insert_app_r_alt by lia. now rewrite Nat.sub_diag.
Qed.

Lemma comprehension_Forall2 {A B C} (R : A -> C -> Prop) (f : A -> M B)
    (g : C -> B) (l : list A) (k : list C) w :
  Forall2 R l k ->
  (forall x c, R x c -> f x w = (w, Ok (g c))) ->
  comprehension l f w = (w, Ok (map g k)).
Proof.
  intros HR Hf. induction HR as [|x c l k Hxc _ IH]; [reflexivity|].
  cbn [comprehension map].
  rewrite (bind_ok _ _ w w (g c)) by now apply Hf.
  now rewrite (bind_ok _ _ w w (map g k)).
Qed.

Lemma foldl_max_ge (l : list nat) (x : nat) :
  (x <= foldl Nat.max x l)%nat /\ Forall (fun y => (y <= foldl Nat.max x l)%nat) l.
Proof.
  revert x. induction l as [|y l IH]; intros x; cbn; [split; [lia|constructor]|].
  destruct (IH (Nat.max x y)) as [H1 H2]. split; [lia|].
  constructor; [lia|exact H2].
Qed.

Lemma foldl_max_in (l : list nat) (x : nat) : foldl Nat.max x l ∈ x :: l.
Proof.
  revert x. induction l as [|y l IH]; intros x; cbn; [left|].
  specialize (IH (Nat.max x y)). apply elem_of_cons in IH as [IH|IH].
  - rewrite IH. destruct (Nat.max_spec x y) as [[_ ->]|[_ ->]].
    + right. left.
    + left.
  - right. now right.
Qed.

Lemma py_max_spec (l : list nat) (L : nat) :
  py_max l = Ok L -> L ∈ l /\ Forall (fun y => (y <= L)%nat) l.
Proof.
  destruct l as [|x l]; [discriminate|]. intros [= <-]. split.
  - apply foldl_max_in.
  - destruct (foldl_max_ge l x). now constructor.
Qed.

Lemma py_max_nonempty (l : list nat) : l <> [] -> exists L, py_max l = Ok L.
Proof. destruct l; [congruence|]. intros _. cbn. eauto. Qed.

Lemma pad_features_spec (w : world) (X : list loc) (arrs rest : list ndarray2)
    (a0 : ndarray2) (L : nat) :
  Forall2 (fun x a => heap w !! x = Some (Arr2 a)) X arrs ->
  arrs = a0 :: rest ->
  py_max (map shape0 arrs) = Ok L ->
  Forall (fits L (shape1 a0)) arrs ->
  pad_features X w
  = (set_heap (heap w ++ [Arr3 {| dim0 := length X; dim1 := L;
                                  dim2 := shape1 a0;
                                  slots := map (pad_slot L (shape1 a0)) arrs |}]) w,
     Ok (length (heap w))).
Proof.
  intros HX -> Hmax Hfit. unfold pad_features.
  erewrite bind_ok; cycle 1.
  { apply comprehension_Forall2 with (R := fun x a => heap w !! x = Some (Arr2 a))
                                      (g := shape0); [exact HX|].
    intros x c Hx. erewrite bind_ok by (unfold read2; rewrite Hx; reflexivity).
    reflexivity. }
  erewrite bind_ok by (unfold lift; rewrite Hmax; reflexivity).
  inversion HX as [|x0 a0' X' rest' Hx0 HX' E1 E2]; subst.
  erewrite bind_ok by reflexivity.
  erewrite bind_ok by (unfold read2; rewrite Hx0; reflexivity).
  erewrite bind_ok by reflexivity.
  erewrite bind_ok; cycle 1.
  { apply (pad_loop (heap w) (length (x0 :: X')) L (shape1 a0) (x0 :: X')
             (a0 :: rest) [] HX Hfit []).
    cbn [alloc set_heap heap np_zeros3 app]. now rewrite app_nil_r. }
  cbn [app]. now rewrite app_nil_r.
Qed.

(** ** What a padded slot holds *)

Lemma pad_slot_lookup (L W : nat) (a : ndarray2) (r c : nat) :
  wf_array2 a -> (r < L)%nat -> (c < W)%nat ->
  pad_slot L W a !! r ≫= (fun row => row !! c)
  = if (r <? shape0 a)%nat && (c <? shape1 a)%nat then get2 a r c
    else Some zero32.
Proof.
  intros [Hlen Hrows] Hr Hc. unfold pad_slot, get2.
  destruct (Nat.ltb_spec c (shape1 a)) as [Hcw|Hcw];
    destruct (Nat.ltb_spec r (shape0 a)) as [Hrt|Hrt]; cbn [andb].
  all: try (rewrite lookup_resize_new by (rewrite ?length_map; lia); cbn;
            now rewrite lookup_replicate_2 by lia).
  all: rewrite lookup_resize by (rewrite ?length_map; lia).
  all: rewrite list_lookup_fmap.
  all: destruct (lookup_lt_is_Some_2 (rows a) r ltac:(lia)) as [row Hrow].
  all: rewrite Hrow; cbn.
  all: assert (length row = shape1 a) as Hl
      by (eapply (proj1 (Forall_lookup _ _) Hrows); eauto).
  - now rewrite lookup_resize by lia.
  - now rewrite lookup_resize_new by lia.
Qed.

Lemma pad_slot_wf (L W : nat) (a : ndarray2) :
  length (pad_slot L W a) = L /\
  Forall (fun r => length r = W) (pad_slot L W a).
Proof.
  unfold pad_slot. split; [apply length_resize|].
  apply Forall_resize; [apply length_replicate|].
  apply Forall_fmap, Forall_forall. intros row _. cbn. apply length_resize.
Qed.

(** ** The records of a batch *)

Section Batch.
Variable w : world.
Variable index : Z.
Let bs := batch_size (self w).
Let d := dataset (self w).
Hypothesis bs_pos : 0 < bs.
Hypothesis nb_ok : num_batches (self w) = Z.of_nat (length d) / bs.
Hypothesis index_ok : 0 <= index < num_batches (self w).

Lemma batch_in_range : bs * index + bs <= Z.of_nat (length d).
Proof.
  rewrite nb_ok in index_ok.
  assert (bs * (index + 1) <= bs * (Z.of_nat (length d) / bs))
    by (apply Z.mul_le_mono_nonneg_l; lia).
  pose proof (Z.mul_div_le (Z.of_nat (length d)) bs bs_pos). lia.
Qed.

Lemma batch_length : length (batch w index) = Z.to_nat bs.
Proof.
  pose proof batch_in_range. unfold batch. fold bs d.
  rewrite length_take, length_drop. nia.
Qed.

Lemma batch_lookup (k : nat) (e : entry) :
  batch w index !! k = Some e ->
  (k < Z.to_nat bs)%nat /\ d !! (Z.to_nat (bs * index) + k)%nat = Some e.
Proof.
  unfold batch. fold bs d. intros H.
  apply lookup_take_Some in H as [H Hk]. now rewrite lookup_drop in H.
Qed.

Lemma batch_idxs_entries :
  Forall2 (fun i e => py_getitem d i = Ok e)
          (np_arange (bs * index) (bs * index + bs)) (batch w index).
Proof.
  pose proof batch_in_range as Hr.
  apply Forall2_same_length_lookup_2.
  - rewrite np_arange_length, batch_length. f_equal. lia.
  - intros k i e Hi He.
    assert (k < Z.to_nat bs)%nat as Hk
      by (apply lookup_lt_Some in He; now rewrite batch_length in He).
    rewrite np_arange_lookup in Hi by (replace (bs * index + bs - bs * index) with bs by lia; exact Hk).
    injection Hi as <-.
    apply batch_lookup in He as [_ He].
    replace (bs * index + Z.of_nat k)
      with (Z.of_nat (Z.to_nat (bs * index) + k)) by nia.
    now apply py_getitem_nat.
Qed.
End Batch.

Lemma wf_world_arrays (w : world) (l : list entry) :
  wf_world w = true -> l ⊆ dataset (self w) ->
  Forall2 (fun e a => array_at w (features e) = Some a /\ wf_array2 a)
          l (omap (fun e => array_at w (features e)) l).
Proof.
  intros Hwf Hsub. induction l as [|e l IH]; [constructor|].
  assert (He : e ∈ dataset (self w)) by (apply Hsub; left).
  unfold wf_world in Hwf. rewrite forallb_forall in Hwf.
  specialize (Hwf e (proj1 (list_elem_of_In _ _) He)).
  cbn [omap list_omap].
  destruct (array_at w (features e)) as [a|] eqn:Ea; [|discriminate].
  constructor.
  - split; [exact Ea|]. now apply wf_array2b_spec.
  - apply IH. intros x Hx. apply Hsub. now right.
Qed.

Lemma batch_subseteq (w : world) (index : Z) :
  batch w index ⊆ dataset (self w).
Proof.
  unfold batch. intros e He.
  apply list_elem_of_lookup in He as [k Hk].
  apply lookup_take_Some in Hk as [Hk _]. rewrite lookup_drop in Hk.
  eapply list_elem_of_lookup_2; eauto.
Qed.

Lemma array_at_heap (w : world) (l : loc) (a : ndarray2) :
  array_at w l = Some a <-> heap w !! l = Some (Arr2 a).
Proof.
  unfold array_at. destruct (heap w !! l) as [[b|b]|]; split; congruence.
Qed.

Lemma dataset_at_run (w : world) (i : Z) :
  dataset_at i w = (w, py_getitem (dataset (self w)) i).
Proof. reflexivity. Qed.

Lemma widths_fit_arrays (w : world) (index : Z) (a0 : ndarray2)
    (rest : list ndarray2) :
  widths_fit w index = true ->
  batch_arrays w index = a0 :: rest ->
  Forall (fun a => (shape1 a <= shape1 a0)%nat) (batch_arrays w index).
Proof.
  intros Hfit Harrs. unfold widths_fit in Hfit. unfold batch_arrays in *.
  destruct (batch w index) as [|e0 b]; [discriminate|].
  destruct (array_at w (features e0)) as [a0'|] eqn:E0; [|discriminate].
  assert (a0' = a0) as -> by (cbn in Harrs; rewrite E0 in Harrs; congruence).
  rewrite forallb_forall in Hfit. apply Forall_forall. intros a Ha.
  apply list_elem_of_omap in Ha as (e & He & Ea).
  specialize (Hfit e (proj1 (list_elem_of_In _ _) He)).
  rewrite Ea in Hfit. now apply Nat.leb_le.
Qed.

(** Batch retrieval, run on a well-formed loader. *)
Lemma getitem_run (w : world) (index : Z) :
  wf_world w = true ->
  0 < batch_size (self w) ->
  num_batches (self w)
  = Z.of_nat (length (dataset (self w))) / batch_size (self w) ->
  0 <= index < num_batches (self w) ->
  widths_fit w index = true ->
  exists a0 rest L,
    batch_arrays w index = a0 :: rest /\
    py_max (map shape0 (batch_arrays w index)) = Ok L /\
    __getitem__ index w
    = (set_heap (heap w ++
                 [Arr3 {| dim0 := length (batch w index); dim1 := L;
                          dim2 := shape1 a0;
                          slots := map (pad_slot L (shape1 a0))
                                       (batch_arrays w index) |}]) w,
       Ok (length (heap w), map label (batch w index))).
Proof.
  intros Hwf Hbs Hnb Hidx Hfit.
  pose proof (wf_world_arrays w (batch w index) Hwf (batch_subseteq w index)) as H2.
  fold (batch_arrays w index) in H2.
  pose proof (batch_length w index Hbs Hnb Hidx) as Hlen.
  destruct (batch_arrays w index) as [|a0 rest] eqn:Harrs.
  { apply Forall2_length in H2. cbn in H2. lia. }
  destruct (py_max_nonempty (map shape0 (a0 :: rest))) as [L HL]; [discriminate|].
  exists a0, rest, L. split; [reflexivity|]. split; [exact HL|].
  pose proof (batch_idxs_entries w index Hbs Hnb Hidx) as Hidxs.
  unfold __getitem__.
  erewrite bind_ok by reflexivity. cbn zeta.
  erewrite bind_ok; cycle 1.
  { eapply comprehension_Forall2 with (g := features); [exact Hidxs|].
    intros i e Hi. erewrite bind_ok by (rewrite dataset_at_run, Hi; reflexivity).
    reflexivity. }
  erewrite bind_ok; cycle 1.
  { eapply comprehension_Forall2 with (g := label); [exact Hidxs|].
    intros i e Hi. erewrite bind_ok by (rewrite dataset_at_run, Hi; reflexivity).
    reflexivity. }
  erewrite bind_ok; cycle 1.
  { eapply pad_features_spec with (arrs := a0 :: rest); [|reflexivity|exact HL|].
    - apply Forall2_fmap_l. eapply Forall2_impl; [exact H2|].
      intros e a [Ha _]. now apply array_at_heap.
    - apply py_max_spec in HL as [_ HL]. rewrite Forall_fmap in HL.
      pose proof (widths_fit_arrays w index a0 rest Hfit Harrs) as Hw.
      rewrite Harrs in Hw.
      apply Forall2_Forall_r with (Q := wf_array2) in H2;
        [|apply Forall_true; tauto].
      rewrite Forall_forall in HL, Hw, H2. apply Forall_forall.
      intros a Ha. unfold fits. specialize (HL a Ha). cbn in HL. auto. }
  now rewrite length_map.
Qed.

(** ** Batch retrieval *)

(** C1. For a batch index within [0, num_batches), on a loader whose records
    refer to well-formed arrays none of which is wider than the first of the
    batch (in particular when all widths agree), [__getitem__] returns a
    tensor of shape (batch_size, longest record of the batch, width of the
    first record) and batch_size labels; slot [k] holds the array of record
    [batch_size * index + k] in its top-left corner and [0.0] in every
    other cell. *)
Theorem getitem_returns_padded_batch (w : world) (index : Z) :
  wf_world w = true ->
  0 < batch_size (self w) ->
  num_batches (self w)
  = Z.of_nat (length (dataset (self w))) / batch_size (self w) ->
  0 <= index < num_batches (self w) ->
  widths_fit w index = true ->
  exists (w' : world) (X : loc) (y : list Z) (P : ndarray3),
    __getitem__ index w = (w', Ok (X, y)) /\
    heap w' !! X = Some (Arr3 P) /\
    wf_array3 P /\
    Z.of_nat (dim0 P) = batch_size (self w) /\
    Z.of_nat (length y) = batch_size (self w) /\
    (exists e a, batch w index !! 0%nat = Some e /\
                 array_at w (features e) = Some a /\ dim2 P = shape1 a) /\
    (exists k e a, batch w index !! k = Some e /\
                   array_at w (features e) = Some a /\ dim1 P = shape0 a) /\
    forall k : nat, Z.of_nat k < batch_size (self w) ->
      exists e a,
        dataset (self w) !! (Z.to_nat (batch_size (self w) * index) + k)%nat
        = Some e /\
        array_at w (features e) = Some a /\
        y !! k = Some (label e) /\
        (shape0 a <= dim1 P)%nat /\ (shape1 a <= dim2 P)%nat /\
        forall r c, (r < dim1 P)%nat -> (c < dim2 P)%nat ->
          get3 P k r c
          = if (r <? shape0 a)%nat && (c <? shape1 a)%nat then get2 a r c
            else Some zero32.
Proof.
  intros Hwf Hbs Hnb Hidx Hfit.
  destruct (getitem_run w index Hwf Hbs Hnb Hidx Hfit)
    as (a0 & rest & L & Harrs & HL & Hrun).
  pose proof (wf_world_arrays w (batch w index) Hwf (batch_subseteq w index)) as H2.
  fold (batch_arrays w index) in H2.
  pose proof (batch_length w index Hbs Hnb Hidx) as Hlen.
  pose proof (widths_fit_arrays w index a0 rest Hfit Harrs) as Hwd.
  destruct (py_max_spec _ _ HL) as [HLin HLge]. rewrite Forall_fmap in HLge.
  eexists _, _, _, _. split; [exact Hrun|].
  cbn [set_heap heap].
  split; [apply list_lookup_middle; reflexivity|].
  cbn [dim0 dim1 dim2].
  split; [|split; [lia|split; [rewrite length_map; lia|split; [|split]]]].
  - split; cbn [slots dim0 dim1 dim2].
    + rewrite length_map. symmetry. eapply Forall2_length; eauto.
    + apply Forall_fmap, Forall_forall. intros a _. apply pad_slot_wf.
  - rewrite Harrs in H2. destruct (batch w index) as [|e0 b]; [inversion H2|].
    apply Forall2_cons_1 in H2 as [[E0 _] _]. exists e0, a0. auto.
  - apply list_elem_of_fmap in HLin as (a & -> & Ha).
    apply list_elem_of_lookup in Ha as [k Hk].
    destruct (Forall2_lookup_r _ _ _ _ _ H2 Hk) as (e & He & Ea & _).
    exists k, e, a. auto.
  - intros k Hk.
    destruct (lookup_lt_is_Some_2 (batch w index) k ltac:(lia)) as [e He].
    destruct (Forall2_lookup_l _ _ _ _ _ H2 He) as (a & Ha & Ea & Hwa).
    exists e, a.
    split; [eapply batch_lookup; eauto|].
    split; [exact Ea|].
    split; [now rewrite list_lookup_fmap, He|].
    split; [exact (proj1 (Forall_lookup _ _) HLge k a Ha)|].
    split; [exact (proj1 (Forall_lookup _ _) Hwd k a Ha)|].
    intros r c Hr Hc. unfold get3. cbn [slots].
    rewrite list_lookup_fmap, Ha. cbn [fmap option_fmap option_map mbind option_bind].
    now apply pad_slot_lookup.
Qed.

Lemma getitem_returns_padded_batch_witness :
  exists (w' : world) (X : loc) (y : list Z) (P : ndarray3),
    __getitem__ 1 sample_world = (w', Ok (X, y)) /\
    heap w' !! X = Some (Arr3 P).
Proof.
  destruct (getitem_returns_padded_batch sample_world 1)
    as (w' & X & y & P & Hrun & Hheap & _);
    [reflexivity|reflexivity|reflexivity|split; [discriminate|reflexivity]
    |reflexivity|].
  exists w', X, y, P. split; [exact Hrun|exact Hheap].
Defined.

(** ** Batch retrieval only allocates *)

Lemma frame_refl n w : frame n w w.
Proof. unfold frame. auto. Qed.

Lemma frame_trans n w1 w2 w3 : frame n w1 w2 -> frame n w2 w3 -> frame n w1 w3.
Proof.
  unfold frame. intros (S1 & G1 & L1 & H1) (S2 & G2 & L2 & H2).
  repeat split; try congruence; try lia.
  intros l Hl. now rewrite H2, H1.
Qed.

Lemma tensor_frame_refl l w : tensor_frame l w w.
Proof. split; [apply frame_refl|auto]. Qed.

Lemma tensor_frame_trans l w1 w2 w3 :
  tensor_frame l w1 w2 -> tensor_frame l w2 w3 -> tensor_frame l w1 w3.
Proof.
  intros [F1 T1] [F2 T2]. split; [eapply frame_trans; eauto|auto].
Qed.

Lemma write_tensor_frame (l : loc) (P : ndarray3) :
  preserves (tensor_frame l) (write l (Arr3 P)).
Proof.
  intros w. unfold write, tensor_frame, frame, holds_tensor. cbn.
  rewrite length_insert. repeat split; auto.
  - intros l' Hl'. apply list_lookup_insert_ne. lia.
  - intros [P0 HP0]. exists P.
    apply list_lookup_insert_eq. eapply lookup_lt_Some; eauto.
Qed.

Lemma pad_loop_frame (Xp : loc) (l : list (Z * loc)) :
  preserves (tensor_frame Xp)
    (for_ l (fun '(idx, features) =>
       a <- read2 features ;;
       let features := np_expand_dims0 a in
       P <- read3 Xp ;;
       P' <- lift (np_setitem3 P idx (dim1 features) (dim2 features) features) ;;
       write Xp (Arr3 P'))).
Proof.
  pose proof (tensor_frame_refl Xp) as Hr.
  pose proof (tensor_frame_trans Xp) as Ht.
  apply preserves_for; [exact Hr|exact Ht|]. intros [idx x].
  apply preserves_bind; [exact Ht|now apply preserves_read2|].
  intros a. cbn zeta.
  apply preserves_bind; [exact Ht|now apply preserves_read3|].
  intros P.
  apply preserves_bind; [exact Ht|now apply preserves_lift|].
  intros P'. apply write_tensor_frame.
Qed.

Lemma unchanged_refl w : unchanged w w.
Proof. reflexivity. Qed.

Lemma unchanged_trans w1 w2 w3 :
  unchanged w1 w2 -> unchanged w2 w3 -> unchanged w1 w3.
Proof. unfold unchanged. congruence. Qed.

Lemma comprehension_reads {A B} (l : list A) (f : A -> M B) :
  (forall x, preserves unchanged (f x)) -> preserves unchanged (comprehension l f).
Proof.
  apply preserves_comprehension; [apply unchanged_refl|apply unchanged_trans].
Qed.

Lemma preserves_unchanged_run {A} (c : M A) w w' r :
  preserves unchanged c -> c w = (w', r) -> w' = w.
Proof. intros H E. specialize (H w). now rewrite E in H. Qed.

Lemma read2_run (l : loc) w w' r :
  read2 l w = (w', r) -> w' = w.
Proof. unfold read2. destruct (heap w !! l) as [[a|a]|]; congruence. Qed.

Lemma pad_features_allocates (X : list loc) (w w' : world) (r : result loc) :
  pad_features X w = (w', r) ->
  frame (length (heap w)) w w' /\
  forall l, r = Ok l -> l = length (heap w) /\ holds_tensor l w'.
Proof.
  unfold pad_features. intros H.
  apply bind_inv in H as [(w1 & lengths & H1 & H)|(e & H1 & ->)];
    apply preserves_unchanged_run in H1; subst;
    try (apply comprehension_reads; intros x;
         apply preserves_bind; [apply unchanged_trans| |];
         [apply preserves_read2, unchanged_refl
         |intros a; apply preserves_ret, unchanged_refl]);
    [|split; [apply frame_refl|discriminate]].
  apply bind_inv in H as [(w1 & L & H1 & H)|(e & H1 & ->)];
    unfold lift in H1; injection H1 as <- _;
    [|split; [apply frame_refl|discriminate]].
  apply bind_inv in H as [(w1 & x0 & H1 & H)|(e & H1 & ->)];
    unfold lift in H1; injection H1 as <- _;
    [|split; [apply frame_refl|discriminate]].
  apply bind_inv in H as [(w1 & a0 & H1 & H)|(e & H1 & ->)];
    apply read2_run in H1; subst;
    [|split; [apply frame_refl|discriminate]].
  apply bind_inv in H as [(w1 & Xp & H1 & H)|(e & H1 & ->)];
    unfold alloc in H1; [|discriminate].
  injection H1 as <- <-.
  set (w1 := set_heap _ w) in H.
  assert (F1 : frame (length (heap w)) w w1).
  { subst w1. unfold frame, set_heap. cbn. rewrite length_app. cbn.
    repeat split; auto; [lia|]. intros l Hl. now apply lookup_app_l. }
  assert (T1 : holds_tensor (length (heap w)) w1).
  { eexists. subst w1. cbn. now apply list_lookup_middle. }
  apply bind_inv in H as [(w2 & u & H1 & H)|(e & H1 & ->)].
  - assert (tensor_frame (length (heap w)) w1 w2) as [F2 T2].
    { change w2 with (fst (w2, Ok u)). rewrite <- H1. apply pad_loop_frame. }
    unfold ret in H. injection H as <- <-.
    split; [eapply frame_trans; eauto|]. intros l [= <-]. auto.
  - assert (tensor_frame (length (heap w)) w1 w') as [F2 T2].
    { change w' with (fst (w', @Raise unit e)). rewrite <- H1.
      apply pad_loop_frame. }
    split; [eapply frame_trans; eauto|discriminate].
Qed.

Lemma dataset_at_reads (i : Z) : preserves unchanged (dataset_at i).
Proof. apply preserves_dataset_at; [apply unchanged_refl|apply unchanged_trans]. Qed.

Lemma getitem_allocates (index : Z) (w w' : world) (r : result (loc * list Z)) :
  __getitem__ index w = (w', r) ->
  frame (length (heap w)) w w' /\
  forall X y, r = Ok (X, y) -> X = length (heap w) /\ holds_tensor X w'.
Proof.
  unfold __getitem__. intros H.
  apply bind_inv in H as [(w1 & bs & H1 & H)|(e & H1 & ->)];
    unfold gets in H1; [|discriminate].
  injection H1 as <- <-. cbn zeta in H.
  apply bind_inv in H as [(w1 & X & H1 & H)|(e & H1 & ->)];
    apply preserves_unchanged_run in H1; subst;
    try (apply comprehension_reads; intros x;
         apply preserves_bind; [apply unchanged_trans|apply dataset_at_reads|];
         intros a; apply preserves_ret, unchanged_refl);
    [|split; [apply frame_refl|discriminate]].
  apply bind_inv in H as [(w1 & y & H1 & H)|(e & H1 & ->)];
    apply preserves_unchanged_run in H1; subst;
    try (apply comprehension_reads; intros x;
         apply preserves_bind; [apply unchanged_trans|apply dataset_at_reads|];
         intros a; apply preserves_ret, unchanged_refl);
    [|split; [apply frame_refl|discriminate]].
  apply bind_inv in H as [(w1 & Xp & H1 & H)|(e & H1 & ->)];
    apply pad_features_allocates in H1 as [F1 T1].
  - unfold ret in H. injection H as <- <-. split; [exact F1|].
    intros X' y' [= <- <-]. now apply T1.
  - split; [exact F1|discriminate].
Qed.

(** C10. Batch retrieval only allocates: for every index, whether the call
    returns or raises, the loader object (records and their order,
    num_batches, num_wakewords, batch_size, shuffle), the random state and
    every array that was on the heap are left as they were; when the call
    returns, the tensor it returns sits at an address that was not in use
    before the call, so it aliases none of the stored feature arrays. *)
Theorem getitem_read_only (w : world) (index : Z) :
  self (fst (__getitem__ index w)) = self w /\
  np_random (fst (__getitem__ index w)) = np_random w /\
  (forall l a, heap w !! l = Some a ->
               heap (fst (__getitem__ index w)) !! l = Some a) /\
  (forall X y, snd (__getitem__ index w) = Ok (X, y) ->
     heap w !! X = None /\ holds_tensor X (fst (__getitem__ index w))).
Proof.
  destruct (__getitem__ index w) as [w' r] eqn:H.
  apply getitem_allocates in H as [(Hs & Hg & _ & Hh) Hr]. cbn [fst snd].
  repeat split; auto.
  - intros l a Hl. rewrite Hh; [exact Hl|]. eapply lookup_lt_Some; eauto.
  - destruct (Hr X y H) as [-> _]. now apply lookup_ge_None_2.
  - now destruct (Hr X y H).
Qed.

Lemma getitem_read_only_witness :
  snd (__getitem__ 1 sample_world) = Ok (5%nat, [1; 0]) /\
  heap sample_world !! 5%nat = None /\
  holds_tensor 5 (fst (__getitem__ 1 sample_world)).
Proof.
  split; [reflexivity|].
  exact (proj2 (proj2 (proj2 (getitem_read_only sample_world 1)))
           5%nat [1; 0] eq_refl).
Defined.

(** ** Padding arrays of different widths *)

Lemma for_app {A} (l1 l2 : list A) (body : A -> M unit) (w : world) :
  for_ (l1 ++ l2) body w = (for_ l1 body ;;; for_ l2 body) w.
Proof.
  revert w. induction l1 as [|x l1 IH]; intros w; cbn [app for_].
  - reflexivity.
  - unfold bind. destruct (body x w) as [w1 [[]|e]]; [|reflexivity].
    rewrite IH. reflexivity.
Qed.

Lemma enumerate_from_app {A} (start : Z) (l1 l2 : list A) :
  enumerate_from start (l1 ++ l2)
  = enumerate_from start l1 ++ enumerate_from (start + Z.of_nat (length l1)) l2.
Proof.
  revert start. induction l1 as [|x l1 IH]; intros start; cbn [app enumerate_from length].
  - now rewrite Z.add_0_r.
  - rewrite IH. do 3 f_equal. lia.
Qed.

Lemma setitem3_too_wide (P : ndarray3) (i : nat) (a : ndarray2) :
  (i < length (slots P))%nat ->
  (dim2 P < shape1 a)%nat -> shape1 a <> 1%nat ->
  np_setitem3 P (Z.of_nat i) (shape0 a) (shape1 a) (np_expand_dims0 a)
  = Raise ValueError.
Proof.
  intros Hi H1 H2. unfold np_setitem3. rewrite py_index_nat by exact Hi.
  cbn [np_expand_dims0 slots dim1 dim2].
  rewrite (broadcast_axis_misfit _ _ H1 H2).
  now destruct (broadcast_axis _ _).
Qed.

Lemma first_too_wide (W : nat) (arrs : list ndarray2) :
  Exists (fun a => (W < shape1 a)%nat /\ shape1 a <> 1%nat) arrs ->
  exists pre a post,
    arrs = pre ++ a :: post /\
    Forall (fun a => (shape1 a <= W)%nat \/ shape1 a = 1%nat) pre /\
    (W < shape1 a)%nat /\ shape1 a <> 1%nat.
Proof.
  induction arrs as [|b arrs IH]; intros H; [inversion H|].
  destruct (le_lt_dec (shape1 b) W) as [Hb|Hb];
    [|destruct (Nat.eq_dec (shape1 b) 1%nat) as [Hb1|Hb1]].
  - destruct IH as (pre & a & post & -> & Hpre & Ha).
    { inversion H as [? ? [? ?]|]; subst; [lia|assumption]. }
    exists (b :: pre), a, post. repeat split; try tauto. constructor; auto.
  - destruct IH as (pre & a & post & -> & Hpre & Ha).
    { inversion H as [? ? [? ?]|]; subst; [lia|assumption]. }
    exists (b :: pre), a, post. repeat split; try tauto. constructor; auto.
  - exists [], b, arrs. repeat split; auto.
Qed.

Lemma pad_features_too_wide (w : world) (X : list loc)
    (arrs rest : list ndarray2) (a0 : ndarray2) :
  Forall2 (fun x a => heap w !! x = Some (Arr2 a)) X arrs ->
  Forall wf_array2 arrs ->
  arrs = a0 :: rest ->
  Exists (fun a => (shape1 a0 < shape1 a)%nat /\ shape1 a <> 1%nat) arrs ->
  snd (pad_features X w) = Raise ValueError.
Proof.
  intros HX Hwf Harrs Hex.
  destruct (py_max_nonempty (map shape0 arrs)) as [L HL];
    [now rewrite Harrs|].
  destruct (py_max_spec _ _ HL) as [_ HLge]. rewrite Forall_fmap in HLge.
  destruct (first_too_wide _ _ Hex) as (pre & a & post & Esplit & Hpre & Ha1 & Ha2).
  rewrite Esplit in HX.
  apply Forall2_app_inv_r in HX as (Xpre & Xrest & HXpre & HXrest & ->).
  apply Forall2_cons_inv_r in HXrest as (x & Xpost & Hx & HXpost & ->).
  assert (Hfit : Forall (fits L (shape1 a0)) pre).
  { rewrite Esplit in Hwf, HLge.
    apply Forall_app in Hwf as [Hwf _]. apply Forall_app in HLge as [HLge _].
    rewrite Forall_forall in Hwf, HLge, Hpre. apply Forall_forall.
    intros b Hb. unfold fits. specialize (HLge b Hb). cbn in HLge. auto. }
  unfold pad_features.
  erewrite bind_ok; cycle 1.
  { apply comprehension_Forall2 with (R := fun x a => heap w !! x = Some (Arr2 a))
                                      (g := shape0) (k := arrs).
    - rewrite Esplit. apply Forall2_app; [exact HXpre|]. now constructor.
    - intros y c Hy. erewrite bind_ok by (unfold read2; rewrite Hy; reflexivity).
      reflexivity. }
  erewrite bind_ok by (unfold lift; rewrite HL; reflexivity).
  assert (exists x0, py_getitem (Xpre ++ x :: Xpost) 0 = Ok x0
                     /\ heap w !! x0 = Some (Arr2 a0)) as (x0 & Hx0 & Hx0a).
  { rewrite Harrs in Esplit. destruct pre as [|b pre].
    - injection Esplit as -> ->. inversion HXpre; subst. exists x. now split.
    - injection Esplit as -> ->. inversion HXpre; subst. eexists. split; eauto. }
  erewrite bind_ok by (unfold lift; rewrite Hx0; reflexivity).
  erewrite bind_ok by (unfold read2; rewrite Hx0a; reflexivity).
  erewrite bind_ok by reflexivity.
  unfold enumerate.
  erewrite (bind_raise _ _ _ _ ValueError); [reflexivity|].
  rewrite enumerate_from_app, for_app.
  erewrite bind_ok; cycle 1.
  { apply (pad_loop (heap w) (length (Xpre ++ x :: Xpost)) L (shape1 a0) Xpre pre
             (replicate (length (x :: Xpost)) (zero_slot L (shape1 a0)))
             HXpre Hfit []).
    cbn [alloc set_heap heap app fst]. do 3 f_equal.
    unfold np_zeros3. now rewrite length_app, replicate_add. }
  cbn [enumerate_from for_ app].
  erewrite (bind_raise _ _ _ _ ValueError); [reflexivity|].
  erewrite bind_ok; cycle 1.
  { unfold read2. cbn [set_heap heap].
    rewrite lookup_app_l by (eapply lookup_lt_Some; eauto). rewrite Hx.
    reflexivity. }
  cbn zeta.
  erewrite bind_ok; cycle 1.
  { unfold read3. cbn [set_heap heap]. rewrite list_lookup_middle by reflexivity.
    reflexivity. }
  erewrite (bind_raise _ _ _ _ ValueError); [reflexivity|].
  unfold lift. cbn [np_expand_dims0 dim1 dim2]. rewrite Z.add_0_l.
  rewrite setitem3_too_wide; auto.
  cbn [slots]. rewrite !length_app, length_map, length_replicate.
  rewrite (Forall2_length _ _ _ HXpre). cbn. lia.
Qed.

Lemma padding_wider_record_raises :
  array_at ragged_world 0 = Some (constant_array 2 2 one32) /\
  array_at ragged_world 1 = Some (constant_array 2 3 two32) /\
  snd (pad_features [0; 1]%nat ragged_world) = Raise ValueError /\
  snd (__getitem__ 0 ragged_world) = Raise ValueError.
Proof. repeat split. Qed.

(** C7 (amended). The width of the padded tensor is the width of the first
    array and nothing is checked beforehand. When no array is wider than
    the first, padding returns: every array is copied whole and the cells to
    its right and below it are [0.0]. When some array is wider than the
    first (and its width is not 1), the slice assignment cannot broadcast it
    and padding raises [ValueError]. *)
Theorem pad_features_width_of_first (w : world) (X : list loc)
    (arrs rest : list ndarray2) (a0 : ndarray2) :
  Forall2 (fun x a => heap w !! x = Some (Arr2 a)) X arrs ->
  Forall wf_array2 arrs ->
  arrs = a0 :: rest ->
  (Forall (fun a => (shape1 a <= shape1 a0)%nat) arrs ->
   exists (w' : world) (Xp : loc) (P : ndarray3),
     pad_features X w = (w', Ok Xp) /\
     heap w' !! Xp = Some (Arr3 P) /\
     dim0 P = length X /\
     dim2 P = shape1 a0 /\
     forall k a, arrs !! k = Some a ->
       (shape0 a <= dim1 P)%nat /\ (shape1 a <= dim2 P)%nat /\
       forall r c, (r < dim1 P)%nat -> (c < dim2 P)%nat ->
         get3 P k r c
         = if (r <? shape0 a)%nat && (c <? shape1 a)%nat then get2 a r c
           else Some zero32) /\
  (Exists (fun a => (shape1 a0 < shape1 a)%nat /\ shape1 a <> 1%nat) arrs ->
   snd (pad_features X w) = Raise ValueError).
Proof.
  intros HX Hwf Harrs. split.
  - intros Hw.
    destruct (py_max_nonempty (map shape0 arrs)) as [L HL];
      [now rewrite Harrs|].
    destruct (py_max_spec _ _ HL) as [_ HLge]. rewrite Forall_fmap in HLge.
    eexists _, _, _. split.
    { eapply pad_features_spec; eauto.
      rewrite Forall_forall in Hwf, HLge, Hw. apply Forall_forall.
      intros a Ha. unfold fits. specialize (HLge a Ha). cbn in HLge. auto. }
    cbn [set_heap heap].
    split; [apply list_lookup_middle; reflexivity|].
    cbn [dim0 dim1 dim2]. split; [reflexivity|]. split; [reflexivity|].
    intros k a Ha.
    split; [exact (proj1 (Forall_lookup _ _) HLge k a Ha)|].
    split; [exact (proj1 (Forall_lookup _ _) Hw k a Ha)|].
    intros r c Hr Hc. unfold get3. cbn [slots].
    rewrite list_lookup_fmap, Ha.
    cbn [fmap option_fmap option_map mbind option_bind].
    apply pad_slot_lookup; auto.
    exact (proj1 (Forall_lookup _ _) Hwf k a Ha).
  - now apply pad_features_too_wide with (arrs := arrs) (rest := rest).
Qed.

Lemma pad_features_width_of_first_witness :
  (exists (w' : world) (Xp : loc) (P : ndarray3),
     pad_features [0; 1]%nat sample_world = (w', Ok Xp) /\
     heap w' !! Xp = Some (Arr3 P) /\ dim2 P = 2%nat) /\
  snd (pad_features [0; 1]%nat ragged_world) = Raise ValueError.
Proof.
  split.
  - destruct (pad_features_width_of_first sample_world [0; 1]%nat
                [constant_array 1 2 one32; constant_array 2 2 two32]
                [constant_array 2 2 two32] (constant_array 1 2 one32))
      as [Hok _].
    + repeat constructor.
    + repeat constructor.
    + reflexivity.
    + destruct Hok as (w' & Xp & P & H1 & H2 & _ & H3 & _).
      * repeat constructor.
      * exists w', Xp, P. auto.
  - apply (pad_features_width_of_first ragged_world [0; 1]%nat
             [constant_array 2 2 one32; constant_array 2 3 two32]
             [constant_array 2 3 two32] (constant_array 2 2 one32)).
    + repeat constructor.
    + repeat constructor.
    + reflexivity.
    + right. left. cbn. split; [lia|discriminate].
Defined.

(** ** The removal pass of [prune_wakewords] *)

Lemma world_eta (w : world) : with_dataset (dataset (self w)) w = w.
Proof. destruct w as [h g [d nw nf bs nb sh]]. reflexivity. Qed.

Lemma wakeword_idxs_from_app (start : nat) (d1 d2 : list entry) :
  wakeword_idxs_from start (d1 ++ d2)
  = wakeword_idxs_from start d1 ++ wakeword_idxs_from (start + length d1) d2.
Proof.
  revert start. induction d1 as [|e d1 IH]; intros start; cbn.
  - now rewrite Nat.add_0_r.
  - rewrite IH. replace (S start + length d1)%nat with (start + S (length d1))%nat by lia.
    now destruct (is_wakeword e).
Qed.

Lemma find_loop (w : world) (post pre : list entry) (acc : list Z) :
  dataset (self w) = pre ++ post ->
  for_acc (map (fun k => 0 + Z.of_nat k) (seq (length pre) (length post))) acc
    (fun wakeword_idxs i =>
       e <- dataset_at i ;;
       if label e =? 1 then ret (wakeword_idxs ++ [i]) else ret wakeword_idxs) w
  = (w, Ok (acc ++ map Z.of_nat (wakeword_idxs_from (length pre) post))).
Proof.
  revert pre acc. induction post as [|e post IH]; intros pre acc Hd.
  - cbn. now rewrite app_nil_r.
  - cbn [length seq map for_acc wakeword_idxs_from].
    rewrite (bind_ok _ _ w w
               (if label e =? 1 then acc ++ [Z.of_nat (length pre)] else acc));
      cycle 1.
    { erewrite bind_ok; cycle 1.
      { rewrite dataset_at_run, Z.add_0_l, Hd.
        rewrite (py_getitem_nat _ _ e) by (now apply list_lookup_middle).
        reflexivity. }
      rewrite Z.add_0_l. now destruct (label e =? 1). }
    specialize (IH (pre ++ [e])). rewrite length_app, Nat.add_1_r in IH.
    rewrite IH by (now rewrite <- app_assoc).
    unfold is_wakeword. destruct (label e =? 1); [|reflexivity].
    now rewrite <- app_assoc.
Qed.

Lemma find_wakeword_idxs_run (w : world) :
  find_wakeword_idxs w
  = (w, Ok (map Z.of_nat (wakeword_idxs_from 0 (dataset (self w))))).
Proof.
  unfold find_wakeword_idxs. erewrite bind_ok by reflexivity.
  unfold np_arange. rewrite Z.sub_0_r, Nat2Z.id.
  exact (find_loop w (dataset (self w)) [] [] eq_refl).
Qed.

Lemma wakeword_idxs_from_lt (start : nat) (d : list entry) :
  Forall (fun i => (start <= i < start + length d)%nat)
         (wakeword_idxs_from start d).
Proof.
  revert start. induction d as [|e d IH]; intros start; cbn; [constructor|].
  specialize (IH (S start)).
  assert (Forall (fun i => (start <= i < start + S (length d))%nat)
            (wakeword_idxs_from (S start) d)).
  { eapply Forall_impl; [exact IH|]. cbn. intros; lia. }
  destruct (is_wakeword e); [constructor; [lia|]|]; assumption.
Qed.

(** The collected indices, read last to first, strictly descend. *)
Lemma wakeword_idxs_descending (start : nat) (d : list entry) :
  descending (rev (map Z.of_nat (wakeword_idxs_from start d))).
Proof.
  revert start. induction d as [|e d IH] using rev_ind; intros start;
    [exact I|].
  rewrite wakeword_idxs_from_app. cbn [wakeword_idxs_from].
  destruct (is_wakeword e); [|now rewrite app_nil_r].
  rewrite map_app, rev_app_distr. cbn. split; [|apply IH].
  apply Forall_rev, Forall_fmap.
  eapply Forall_impl; [apply wakeword_idxs_from_lt|]. cbn. intros; lia.
Qed.

Lemma move_loop (d : list entry) :
  forall (rest acc : list entry) (w : world),
  dataset (self w) = d ++ rest ->
  for_acc (rev (map Z.of_nat (wakeword_idxs_from 0 d))) acc
    (fun wakewords i =>
       e <- dataset_at i ;;
       d <- gets dataset ;;
       d' <- lift (py_delitem d i) ;;
       modify (set_dataset d') ;;;
       ret (wakewords ++ [e])) w
  = (with_dataset (others_of d ++ rest) w, Ok (acc ++ rev (wakewords_of d))).
Proof.
  induction d as [|e d IH] using rev_ind; intros rest acc w Hd.
  - cbn. unfold ret. rewrite app_nil_r. cbn in Hd. rewrite <- Hd.
    now rewrite world_eta.
  - rewrite wakeword_idxs_from_app. cbn [wakeword_idxs_from].
    unfold wakewords_of, others_of. rewrite !filter_app, !filter_cons, !filter_nil.
    destruct (is_wakeword e) eqn:Ee.
    + repeat case_decide; try congruence.
      rewrite map_app, !rev_app_distr. cbn [map rev app for_acc].
      rewrite Nat.add_0_l.
      erewrite bind_ok; cycle 1.
      { erewrite bind_ok; cycle 1.
        { rewrite dataset_at_run, Hd, <- app_assoc.
          rewrite (py_getitem_nat _ _ e) by (now apply list_lookup_middle).
          reflexivity. }
        erewrite bind_ok by reflexivity.
        erewrite bind_ok; cycle 1.
        { unfold lift, py_delitem. rewrite Hd, <- app_assoc.
          rewrite py_index_nat by (rewrite length_app; cbn; lia).
          cbn [app]. rewrite delete_middle. reflexivity. }
        erewrite bind_ok by reflexivity. reflexivity. }
      rewrite (IH rest (acc ++ [e])) by reflexivity.
      rewrite app_nil_r, <- app_assoc. reflexivity.
    + repeat case_decide; try congruence.
      rewrite !app_nil_r.
      rewrite (IH (e :: rest) acc w) by (now rewrite Hd, <- app_assoc).
      now rewrite <- app_assoc.
Qed.

Lemma move_wakewords_run (w : world) :
  move_wakewords (map Z.of_nat (wakeword_idxs_from 0 (dataset (self w)))) w
  = (with_dataset (others_of (dataset (self w))) w,
     Ok (rev (wakewords_of (dataset (self w))))).
Proof.
  unfold move_wakewords.
  rewrite (move_loop (dataset (self w)) [] [] w) by (now rewrite app_nil_r).
  now rewrite app_nil_r.
Qed.

(** ** Shuffling *)

Lemma py_swap_Permutation {A} (x : list A) (i j : nat) : py_swap x i j ≡ₚ x.
Proof.
  unfold py_swap. destruct (x !! i) as [a|] eqn:Ei; [|reflexivity].
  destruct (x !! j) as [b|] eqn:Ej; [|reflexivity].
  now apply Permutation_insert_swap.
Qed.

Lemma shuffle_from_run {A} (i : nat) (x : list A) (w : world) :
  exists g x', shuffle_from i x w = (set_np_random g w, Ok x') /\ x' ≡ₚ x.
Proof.
  revert x w. induction i as [|i IH]; intros x w; cbn [shuffle_from].
  - exists (np_random w), x. split; [now destruct w|reflexivity].
  - unfold bind, random_interval.
    destruct (IH (py_swap x (S i) (draws (np_random w) (cursor (np_random w))
                                   mod S (S i))%nat)
                 (set_np_random {| draws := draws (np_random w);
                                   cursor := S (cursor (np_random w)) |} w))
      as (g & x' & Hrun & Hperm).
    exists g, x'. split; [exact Hrun|].
    rewrite Hperm. apply py_swap_Permutation.
Qed.

Lemma np_random_shuffle_run {A} (x : list A) (w : world) :
  exists g x', np_random_shuffle x w = (set_np_random g w, Ok x') /\ x' ≡ₚ x.
Proof. apply shuffle_from_run. Qed.

(** ** What [prune_wakewords] does, in every case *)

Lemma prune_run (keep_ratio : float64) (w : world) :
  exists (g1 : bitgen) (wk : list entry),
    wk ≡ₚ wakewords_of (dataset (self w)) /\
    match keep_count keep_ratio (num_wakewords (self w)) with
    | Raise e =>
        prune_wakewords keep_ratio w
        = (set_np_random g1 (with_dataset (others_of (dataset (self w))) w),
           Raise e)
    | Ok k =>
        exists (g2 : bitgen) (d' : list entry),
          d' ≡ₚ others_of (dataset (self w)) ++ py_slice_to wk k /\
          prune_wakewords keep_ratio w
          = match py_floordiv (Z.of_nat (length d')) (batch_size (self w)) with
            | Ok nb =>
                ({| heap := heap w; np_random := g2;
                    self := set_num_batches nb (set_dataset d' (self w)) |},
                 Ok tt)
            | Raise e => (set_np_random g2 (with_dataset d' w), Raise e)
            end
    end.
Proof.
  unfold prune_wakewords.
  rewrite (bind_ok _ _ _ _ _ (find_wakeword_idxs_run w)).
  rewrite (bind_ok _ _ _ _ _ (move_wakewords_run w)).
  set (w1 := with_dataset (others_of (dataset (self w))) w).
  destruct (np_random_shuffle_run (rev (wakewords_of (dataset (self w)))) w1)
    as (g1 & wk & Hsh1 & Hp1).
  exists g1, wk. split; [now rewrite Hp1, <- Permutation_rev|].
  rewrite (bind_ok _ _ _ _ _ Hsh1).
  rewrite bind_gets.
  subst w1. cbn [set_np_random with_dataset self set_dataset num_wakewords].
  destruct (keep_count keep_ratio (num_wakewords (self w))) as [k|e];
    [|now rewrite bind_lift_raise].
  rewrite bind_lift_ok, bind_gets, bind_modify, bind_gets.
  cbn [with_self self set_dataset dataset heap np_random].
  match goal with |- context [bind (np_random_shuffle ?d) _ ?w0] =>
    destruct (np_random_shuffle_run d w0) as (g2 & d' & Hsh2 & Hp2) end.
  exists g2, d'. split; [exact Hp2|].
  rewrite (bind_ok _ _ _ _ _ Hsh2).
  rewrite bind_modify, bind_number_of_examples, bind_gets.
  cbn [with_self set_np_random self set_dataset dataset batch_size heap np_random].
  destruct (py_floordiv _ _) as [nb|e]; [|now rewrite bind_lift_raise].
  now rewrite bind_lift_ok.
Qed.

Lemma wakeword_idxs_from_spec (start : nat) (d : list entry) (i : nat) :
  i ∈ wakeword_idxs_from start d
  <-> exists e, (start <= i)%nat /\ d !! (i - start)%nat = Some e /\ label e = 1.
Proof.
  revert start. induction d as [|e d IH]; intros start; cbn [wakeword_idxs_from].
  - split; [intros H; inversion H|intros (e & _ & H & _); discriminate].
  - assert (i ∈ wakeword_idxs_from (S start) d
            <-> exists e', (S start <= i)%nat /\ (e :: d) !! (i - start)%nat = Some e'
                           /\ label e' = 1) as IH'.
    { rewrite IH. split; intros (e' & Hi & He' & Hl); exists e'.
      - replace (i - start)%nat with (S (i - S start)) by lia. auto.
      - replace (i - start)%nat with (S (i - S start)) in He' by lia. auto. }
    unfold is_wakeword. destruct (Z.eqb_spec (label e) 1) as [Hl|Hl].
    + rewrite elem_of_cons, IH'. split.
      * intros [->|(e' & Hi & He' & Hl')].
        -- exists e. rewrite Nat.sub_diag. auto.
        -- exists e'. split; [lia|auto].
      * intros (e' & Hi & He' & Hl').
        destruct (Nat.eq_dec i start) as [->|Hne]; [now left|].
        right. exists e'. split; [lia|auto].
    + rewrite IH'. split.
      * intros (e' & Hi & He' & Hl'). exists e'. split; [lia|auto].
      * intros (e' & Hi & He' & Hl').
        destruct (Nat.eq_dec i start) as [->|Hne].
        -- rewrite Nat.sub_diag in He'. cbn in He'. congruence.
        -- exists e'. split; [lia|auto].
Qed.

(** C4. The removal pass of [prune_wakewords] collects the positions of the
    records with label 1 and deletes them one at a time from the last to
    the first; none of these deletions is out of range, and what is left in
    [self.dataset] is the list of the other records, each exactly once and
    in their original order, while the removed records are handed on (in
    reverse order). *)
Theorem removal_pass_keeps_others (w : world) :
  exists idxs : list Z,
    find_wakeword_idxs w = (w, Ok idxs) /\
    (forall i : nat,
       Z.of_nat i ∈ idxs
       <-> exists e, dataset (self w) !! i = Some e /\ label e = 1) /\
    descending (rev idxs) /\
    move_wakewords idxs w
    = (with_dataset (filter (fun e => is_wakeword e <> true) (dataset (self w))) w,
       Ok (rev (filter (fun e => is_wakeword e = true) (dataset (self w))))).
Proof.
  exists (map Z.of_nat (wakeword_idxs_from 0 (dataset (self w)))).
  split; [apply find_wakeword_idxs_run|]. split; [|split].
  - intros i. rewrite list_elem_of_fmap. split.
    + intros (j & Hj & Hin). apply Nat2Z.inj in Hj. subst j.
      apply wakeword_idxs_from_spec in Hin as (e & _ & He & Hl).
      rewrite Nat.sub_0_r in He. eauto.
    + intros (e & He & Hl). exists i. split; [reflexivity|].
      apply wakeword_idxs_from_spec. exists e. rewrite Nat.sub_0_r.
      split; [lia|auto].
  - apply wakeword_idxs_descending.
  - apply move_wakewords_run.
Qed.

(** ** The order-dependent accessors *)

Lemma range_entries (d : list entry) :
  Forall2 (fun i e => py_getitem d i = Ok e)
          (np_arange 0 (Z.of_nat (length d))) d.
Proof.
  apply Forall2_same_length_lookup_2.
  - rewrite np_arange_length. lia.
  - intros k i e Hi He.
    rewrite np_arange_lookup in Hi
      by (apply lookup_lt_Some in He; lia).
    injection Hi as <-. rewrite Z.add_0_l. now apply py_getitem_nat.
Qed.

Lemma field_comprehension {B} (f : entry -> B) (w : world) :
  comprehension (np_arange 0 (Z.of_nat (length (dataset (self w)))))
    (fun i => e <- dataset_at i ;; ret (f e)) w
  = (w, Ok (map f (dataset (self w)))).
Proof.
  eapply comprehension_Forall2; [apply range_entries|].
  intros i e Hi. erewrite bind_ok by (rewrite dataset_at_run, Hi; reflexivity).
  reflexivity.
Qed.

Lemma accessors_labels_filenames_run (w : world) :
  get_labels w
  = (w, if shuffle (self w) then Raise AssertionError
        else Ok (map label (dataset (self w)))) /\
  get_filenames w
  = (w, if shuffle (self w) then Raise AssertionError
        else Ok (map file_name (dataset (self w)))).
Proof.
  unfold get_labels, get_filenames.
  rewrite !bind_gets.
  destruct (shuffle (self w)); cbn [negb assert_].
  - repeat split.
  - rewrite !bind_ret, !bind_number_of_examples, !field_comprehension.
    repeat split.
Qed.

(** C6. [get_labels] and [get_filenames] raise [AssertionError] exactly
    when the [shuffle] flag is set, whatever has or has not been shuffled so
    far; when the flag is clear they return the labels, respectively the
    file names, of the records in their current order, one per record. In
    both cases the world is left as it was. *)
Theorem accessors_require_no_shuffle (w : world) :
  get_labels w
  = (w, if shuffle (self w) then Raise AssertionError
        else Ok (map label (dataset (self w)))) /\
  get_filenames w
  = (w, if shuffle (self w) then Raise AssertionError
        else Ok (map file_name (dataset (self w)))) /\
  length (map label (dataset (self w))) = length (dataset (self w)) /\
  length (map file_name (dataset (self w))) = length (dataset (self w)).
Proof.
  destruct (accessors_labels_filenames_run w) as [Hl Hf].
  rewrite !length_map. repeat split; assumption.
Qed.

(** ** Counting the positive class *)

Lemma count_wakewords_Permutation (d d' : list entry) :
  d ≡ₚ d' -> count_wakewords d = count_wakewords d'.
Proof. intros H. unfold count_wakewords. now rewrite H. Qed.

Lemma count_wakewords_app (d1 d2 : list entry) :
  count_wakewords (d1 ++ d2) = count_wakewords d1 + count_wakewords d2.
Proof. unfold count_wakewords. rewrite filter_app, length_app. lia. Qed.

Lemma count_wakewords_others (d : list entry) : count_wakewords (others_of d) = 0.
Proof.
  unfold count_wakewords, others_of. rewrite list_filter_filter.
  induction d as [|e d IH]; [reflexivity|].
  rewrite filter_cons_False by tauto. exact IH.
Qed.

Lemma count_wakewords_all (d : list entry) :
  Forall (fun e => is_wakeword e = true) d ->
  count_wakewords d = Z.of_nat (length d).
Proof.
  intros H. unfold count_wakewords. f_equal. f_equal.
  induction H as [|e d He _ IH]; [reflexivity|].
  rewrite filter_cons_True by exact He. now rewrite IH.
Qed.

Lemma wakewords_of_all (d : list entry) :
  Forall (fun e => is_wakeword e = true) (wakewords_of d).
Proof.
  apply Forall_forall. intros e He.
  now apply list_elem_of_filter in He as [He _].
Qed.

Lemma others_of_others (d : list entry) : others_of (others_of d) = others_of d.
Proof.
  unfold others_of. rewrite list_filter_filter.
  apply list_filter_iff. tauto.
Qed.

Lemma others_of_wakewords (d : list entry) :
  Forall (fun e => is_wakeword e = true) d -> others_of d = [].
Proof.
  intros H. unfold others_of. induction H as [|e d He _ IH]; [reflexivity|].
  rewrite filter_cons_False by tauto. exact IH.
Qed.

Lemma py_slice_to_length {A} (l : list A) (k : Z) :
  Z.of_nat (length (py_slice_to l k))
  = if k <? 0 then Z.max 0 (Z.of_nat (length l) + k)
    else Z.min k (Z.of_nat (length l)).
Proof.
  unfold py_slice_to. rewrite length_take.
  destruct (Z.ltb_spec k 0); lia.
Qed.

Lemma py_slice_to_all {A} (l : list A) (k : Z) :
  Z.of_nat (length l) <= k -> py_slice_to l k = l.
Proof.
  intros H. unfold py_slice_to.
  destruct (Z.ltb_spec k 0); [lia|]. apply take_ge. lia.
Qed.

(** The record list that [prune_wakewords] leaves when it returns. *)
Lemma pruned_dataset_count (d d' wk : list entry) (k : Z) :
  wk ≡ₚ wakewords_of d ->
  d' ≡ₚ others_of d ++ py_slice_to wk k ->
  count_wakewords d'
  = (if k <? 0 then Z.max 0 (count_wakewords d + k)
     else Z.min k (count_wakewords d)) /\
  others_of d' ≡ₚ others_of d.
Proof.
  intros Hwk Hd'.
  assert (Hall : Forall (fun e => is_wakeword e = true) wk).
  { rewrite Hwk. apply wakewords_of_all. }
  assert (Hlen : Z.of_nat (length wk) = count_wakewords d).
  { unfold count_wakewords. fold (wakewords_of d). now rewrite Hwk. }
  assert (Hslice : Forall (fun e => is_wakeword e = true) (py_slice_to wk k)).
  { unfold py_slice_to. now apply Forall_take. }
  split.
  - rewrite (count_wakewords_Permutation _ _ Hd'), count_wakewords_app,
      count_wakewords_others, (count_wakewords_all _ Hslice),
      py_slice_to_length, Hlen. lia.
  - unfold others_of at 1. rewrite Hd'. fold (others_of (others_of d ++ py_slice_to wk k)).
    unfold others_of at 1. rewrite filter_app.
    fold (others_of (others_of d)). fold (others_of (py_slice_to wk k)).
    now rewrite others_of_others, (others_of_wakewords _ Hslice), app_nil_r.
Qed.

(** [prune_wakewords] returns as soon as the count can be computed and the
    batch size is not zero. *)
Lemma prune_returns (keep_ratio : float64) (w : world) (k : Z) :
  keep_count keep_ratio (num_wakewords (self w)) = Ok k ->
  batch_size (self w) <> 0 ->
  exists (g : bitgen) (d' wk : list entry),
    wk ≡ₚ wakewords_of (dataset (self w)) /\
    d' ≡ₚ others_of (dataset (self w)) ++ py_slice_to wk k /\
    prune_wakewords keep_ratio w
    = ({| heap := heap w; np_random := g;
          self := set_num_batches
                    (Z.of_nat (length d') / batch_size (self w))
                    (set_dataset d' (self w)) |}, Ok tt).
Proof.
  intros Hk Hbs.
  destruct (prune_run keep_ratio w) as (g1 & wk & Hwk & Hrun).
  rewrite Hk in Hrun. destruct Hrun as (g2 & d' & Hd' & Hrun).
  exists g2, d', wk. split; [exact Hwk|]. split; [exact Hd'|].
  rewrite Hrun. unfold py_floordiv.
  now destruct (Z.eqb_spec (batch_size (self w)) 0).
Qed.

(** ** Construction *)

Lemma count_hotwords_cons (g : h5group) (store : list h5group) :
  count_hotwords (g :: store)
  = (if is_hotword g =? 1 then 1 else 0) + count_hotwords store.
Proof.
  unfold count_hotwords. rewrite filter_cons.
  destruct (Z.eqb_spec (is_hotword g) 1); case_decide; try congruence;
    cbn [length]; lia.
Qed.

Lemma preload_loop (store : list h5group) (w : world) :
  for_ store (fun g =>
    f <- alloc (Arr2 (payload g)) ;;
    d <- gets dataset ;;
    modify (set_dataset (d ++ [{| file_name := key g;
                                   label := np_uint8 (is_hotword g);
                                   start_speech := np_int16 (speech_start_ts g);
                                   end_speech := np_int16 (speech_end_ts g);
                                   features := f |}])) ;;;
    if is_hotword g =? 1 then
      nw <- gets num_wakewords ;; modify (set_num_wakewords (nw + 1))
    else ret tt) w
  = ({| heap := heap w ++ map (fun g => Arr2 (payload g)) store;
        np_random := np_random w;
        self := set_num_wakewords
                  (num_wakewords (self w) + count_hotwords store)
                  (set_dataset
                     (dataset (self w) ++ load_entries (length (heap w)) store)
                     (self w)) |}, Ok tt).
Proof.
  revert w. induction store as [|g store IH]; intros w.
  - cbn. unfold ret. rewrite !app_nil_r. unfold count_hotwords. cbn.
    rewrite Z.add_0_r. now destruct w as [h rg [d nw nf bs nb sh]].
  - cbn [for_]. unfold bind at 1. unfold bind at 1, alloc at 1.
    rewrite bind_gets, bind_modify.
    cbn [with_self set_heap self heap np_random set_dataset dataset].
    rewrite count_hotwords_cons.
    destruct (is_hotword g =? 1).
    + rewrite bind_gets. unfold modify at 1. rewrite IH.
      cbn -[Z.add count_hotwords].
      rewrite length_app, Nat.add_1_r, <- !app_assoc. cbn [app].
      do 2 f_equal. unfold set_num_wakewords, set_dataset.
      cbn -[Z.add count_hotwords]. f_equal. lia.
    + unfold ret at 1. rewrite IH.
      cbn -[Z.add count_hotwords].
      rewrite length_app, Nat.add_1_r, <- !app_assoc. cbn [app].
      reflexivity.
Qed.

Lemma load_entries_length (base : nat) (store : list h5group) :
  length (load_entries base store) = length store.
Proof.
  revert base. induction store as [|g store IH]; intros base; cbn; auto.
Qed.

Lemma preload_data_run (store : list h5group) (w : world) :
  preload_data store w
  = ({| heap := heap w ++ map (fun g => Arr2 (payload g)) store;
        np_random := np_random w;
        self := set_num_wakewords (count_hotwords store)
                  (set_dataset (load_entries (length (heap w)) store) (self w)) |},
     Ok (load_entries (length (heap w)) store, count_hotwords store)).
Proof.
  unfold preload_data. rewrite !bind_modify.
  erewrite bind_ok by apply preload_loop.
  rewrite !bind_gets, Z.add_0_l. reflexivity.
Qed.

(** The loader that [__init__] builds. *)
Lemma init_run (store : list h5group) (bs nf : Z) (sh : bool) (w : world) :
  bs <> 0 ->
  __init__ store bs nf sh w
  = ({| heap := heap w ++ map (fun g => Arr2 (payload g)) store;
        np_random := np_random w;
        self := {| dataset := load_entries (length (heap w)) store;
                   num_wakewords := count_hotwords store;
                   num_features := nf;
                   batch_size := bs;
                   num_batches := Z.of_nat (length store) / bs;
                   shuffle := sh |} |}, Ok tt).
Proof.
  intros Hbs. unfold __init__.
  erewrite bind_ok by apply preload_data_run.
  rewrite !bind_modify, bind_number_of_examples.
  unfold py_floordiv. destruct (Z.eqb_spec bs 0) as [|_]; [contradiction|].
  rewrite bind_lift_ok, bind_modify. unfold modify.
  cbn. now rewrite load_entries_length.
Qed.

(** ** What pruning and reshuffling leave alone *)

Lemma prune_frame (keep_ratio : float64) (w : world) :
  heap (fst (prune_wakewords keep_ratio w)) = heap w /\
  num_wakewords (self (fst (prune_wakewords keep_ratio w)))
  = num_wakewords (self w) /\
  batch_size (self (fst (prune_wakewords keep_ratio w))) = batch_size (self w) /\
  num_features (self (fst (prune_wakewords keep_ratio w)))
  = num_features (self w) /\
  shuffle (self (fst (prune_wakewords keep_ratio w))) = shuffle (self w).
Proof.
  destruct (prune_run keep_ratio w) as (g1 & wk & _ & Hrun).
  destruct (keep_count keep_ratio (num_wakewords (self w))) as [k|e].
  - destruct Hrun as (g2 & d' & _ & ->).
    destruct (py_floordiv _ _); cbn; auto.
  - rewrite Hrun. cbn. auto.
Qed.

Lemma on_epoch_end_run (w : world) :
  exists (g : bitgen) (d' : list entry),
    d' ≡ₚ dataset (self w) /\
    on_epoch_end w
    = ({| heap := heap w; np_random := g; self := set_dataset d' (self w) |},
       Ok tt).
Proof.
  unfold on_epoch_end. rewrite bind_gets.
  destruct (shuffle (self w)).
  - rewrite bind_gets.
    destruct (np_random_shuffle_run (dataset (self w)) w) as (g & d' & Hsh & Hp).
    exists g, d'. split; [exact Hp|].
    rewrite (bind_ok _ _ _ _ _ Hsh). reflexivity.
  - exists (np_random w), (dataset (self w)). split; [reflexivity|].
    now destruct w as [h g [d nw nf bs nb sh]].
Qed.

Lemma raising_prune_leaves_num_batches_stale :
  num_batches (self sample_world)
  = Z.of_nat (length (dataset (self sample_world)))
    / batch_size (self sample_world) /\
  snd (prune_wakewords b64_huge sample_world) = Raise OverflowError /\
  length (dataset (self sample_world)) = 5%nat /\
  length (dataset (self (fst (prune_wakewords b64_huge sample_world)))) = 2%nat /\
  batch_size (self (fst (prune_wakewords b64_huge sample_world))) = 2 /\
  num_batches (self (fst (prune_wakewords b64_huge sample_world))) = 2 /\
  num_batches (self (fst (prune_wakewords b64_huge sample_world)))
  <> Z.of_nat (length (dataset (self (fst (prune_wakewords b64_huge
                                             sample_world)))))
     / batch_size (self (fst (prune_wakewords b64_huge sample_world))).
Proof. vm_compute. repeat split. discriminate. Qed.

(** C2 (amended). [num_batches] is the floor of the record count over the
    batch size after construction ([__len__] of a loader built from N
    groups returns N // batch_size) and after every [prune_wakewords] that
    returns, which it does whenever the count
    int(keep_ratio * num_wakewords) can be computed and the batch size is
    not zero: its last step recomputes [num_batches] from the new record
    count. [on_epoch_end] changes neither [num_batches] nor the record
    count. A [prune_wakewords] that raises while it computes the count has
    removed the positive records already and leaves [num_batches] and
    [batch_size] as they were, so that [num_batches] need not be the floor
    quotient after it. *)
Theorem num_batches_tracks_length :
  (forall (store : list h5group) (bs nf : Z) (sh : bool) (w0 : world),
     bs <> 0 ->
     exists w,
       __init__ store bs nf sh w0 = (w, Ok tt) /\
       length (dataset (self w)) = length store /\
       batch_size (self w) = bs /\
       num_batches (self w)
       = Z.of_nat (length (dataset (self w))) / batch_size (self w) /\
       __len__ w = (w, Ok (Z.of_nat (length store) / bs))) /\
  (forall (keep_ratio : float64) (w : world) (k : Z),
     keep_count keep_ratio (num_wakewords (self w)) = Ok k ->
     batch_size (self w) <> 0 ->
     exists w',
       prune_wakewords keep_ratio w = (w', Ok tt) /\
       batch_size (self w') = batch_size (self w) /\
       num_batches (self w')
       = Z.of_nat (length (dataset (self w'))) / batch_size (self w')) /\
  (forall w : world,
     exists w',
       on_epoch_end w = (w', Ok tt) /\
       num_batches (self w') = num_batches (self w) /\
       batch_size (self w') = batch_size (self w) /\
       length (dataset (self w')) = length (dataset (self w))) /\
  (forall (keep_ratio : float64) (w w' : world),
     prune_wakewords keep_ratio w = (w', Ok tt) ->
     batch_size (self w') = batch_size (self w) /\
     num_batches (self w')
     = Z.of_nat (length (dataset (self w'))) / batch_size (self w')) /\
  (forall (keep_ratio : float64) (w : world) (e : exn),
     keep_count keep_ratio (num_wakewords (self w)) = Raise e ->
     exists w',
       prune_wakewords keep_ratio w = (w', Raise e) /\
       dataset (self w') = others_of (dataset (self w)) /\
       batch_size (self w') = batch_size (self w) /\
       num_batches (self w') = num_batches (self w)).
Proof.
  split; [|split; [|split; [|split]]]; cycle 3.
  - intros keep_ratio w w' Hrun.
    destruct (prune_run keep_ratio w) as (g1 & wk & _ & Hcase).
    destruct (keep_count keep_ratio (num_wakewords (self w))) as [k|e].
    + destruct Hcase as (g2 & d' & _ & Hcase). rewrite Hcase in Hrun.
      unfold py_floordiv in Hrun.
      destruct (Z.eqb_spec (batch_size (self w)) 0) as [E|_];
        [discriminate|].
      injection Hrun as <-. cbn. auto.
    + rewrite Hcase in Hrun. discriminate.
  - intros keep_ratio w e Hk.
    destruct (prune_run keep_ratio w) as (g1 & wk & _ & Hcase).
    rewrite Hk in Hcase. eexists. split; [exact Hcase|]. cbn. auto.
  - intros store bs nf sh w0 Hbs. eexists. split; [now apply init_run|].
    cbn. rewrite load_entries_length. auto.
  - intros keep_ratio w k Hk Hbs.
    destruct (prune_returns keep_ratio w k Hk Hbs) as (g & d' & wk & _ & _ & ->).
    eexists. split; [reflexivity|]. cbn. auto.
  - intros w. destruct (on_epoch_end_run w) as (g & d' & Hp & ->).
    eexists. split; [reflexivity|]. cbn. repeat split.
    now rewrite Hp.
Qed.

Lemma num_batches_tracks_length_witness :
  (exists w, __init__ sample_store 2 40 false blank_world = (w, Ok tt) /\
             __len__ w = (w, Ok 2)) /\
  (exists w', prune_wakewords (S754_finite false 4503599627370496 (-53))
                sample_world = (w', Ok tt) /\
              num_batches (self w')
              = Z.of_nat (length (dataset (self w'))) / batch_size (self w')) /\
  (exists w', prune_wakewords b64_huge sample_world = (w', Raise OverflowError) /\
              num_batches (self w') = num_batches (self sample_world)).
Proof.
  split; [|split]; cycle 2.
  - destruct (proj2 (proj2 (proj2 (proj2 num_batches_tracks_length)))
                b64_huge sample_world OverflowError)
      as (w' & H1 & _ & _ & H2); [now vm_compute|].
    exists w'. auto.
  - destruct (proj1 num_batches_tracks_length sample_store 2 40 false blank_world)
      as (w & H1 & _ & _ & _ & H2); [discriminate|].
    exists w. auto.
  - destruct (proj1 (proj2 num_batches_tracks_length)
                (S754_finite false 4503599627370496 (-53)) sample_world 1)
      as (w' & H1 & _ & H2); [vm_compute; reflexivity|vm_compute; discriminate|].
    exists w'. auto.
Defined.

(** C9. [num_wakewords] is set by [__init__] to the number of groups whose
    [is_hotword] attribute is 1, and no later operation changes it:
    [prune_wakewords] (whether it returns or raises), [__getitem__],
    [on_epoch_end] and the accessors leave the field as it was, so
    [number_of_wakewords] still returns the load-time count after
    pruning. *)
Theorem num_wakewords_frozen :
  (forall (store : list h5group) (bs nf : Z) (sh : bool) (w0 : world),
     bs <> 0 ->
     exists w,
       __init__ store bs nf sh w0 = (w, Ok tt) /\
       number_of_wakewords w = (w, Ok (count_hotwords store))) /\
  (forall (w : world),
     (forall keep_ratio,
        num_wakewords (self (fst (prune_wakewords keep_ratio w)))
        = num_wakewords (self w)) /\
     (forall index,
        num_wakewords (self (fst (__getitem__ index w)))
        = num_wakewords (self w)) /\
     num_wakewords (self (fst (on_epoch_end w))) = num_wakewords (self w) /\
     fst (get_labels w) = w /\
     fst (get_filenames w) = w /\
     fst (__len__ w) = w /\
     fst (number_of_examples w) = w /\
     number_of_wakewords w = (w, Ok (num_wakewords (self w))) /\
     (forall keep_ratio,
        snd (number_of_wakewords (fst (prune_wakewords keep_ratio w)))
        = Ok (num_wakewords (self w)))).
Proof.
  split.
  - intros store bs nf sh w0 Hbs. eexists. split; [now apply init_run|].
    reflexivity.
  - intros w.
    destruct (accessors_labels_filenames_run w) as [Hl Hf].
    repeat split.
    + intros keep_ratio. apply prune_frame.
    + intros index.
      destruct (__getitem__ index w) as [w' r] eqn:H.
      apply getitem_allocates in H as [(Hs & _) _]. cbn. now rewrite Hs.
    + destruct (on_epoch_end_run w) as (g & d' & _ & ->). reflexivity.
    + now rewrite Hl.
    + now rewrite Hf.
    + intros keep_ratio. unfold number_of_wakewords, gets. cbn [snd].
      f_equal. apply prune_frame.
Qed.

Lemma num_wakewords_frozen_witness :
  exists w, __init__ sample_store 2 40 false blank_world = (w, Ok tt) /\
            number_of_wakewords w = (w, Ok 3).
Proof.
  destruct (proj1 num_wakewords_frozen sample_store 2 40 false blank_world)
    as (w & H1 & H2); [discriminate|].
  exists w. auto.
Defined.

(** ** Rounding of binary64 products

    [int(keep_ratio * num_wakewords)] rounds the product to binary64 before
    it truncates. The lemmas below bound the rounded product from both
    sides by any integer below 2^53 that bounds the exact product, which is
    all the pruning statements need. Values are compared after scaling by a
    power of two [2 ^ K] large enough to make every exponent non-negative. *)

Lemma iter_pos_nat {A} (f : A -> A) (p : positive) (x : A) :
  SpecFloat.iter_pos f p x = Nat.iter (Pos.to_nat p) f x.
Proof.
  revert x. induction p as [p IH|p IH|]; intros x; cbn [SpecFloat.iter_pos].
  - rewrite !IH, Pos2Nat.inj_xI.
    replace (S (2 * Pos.to_nat p))%nat with (S (Pos.to_nat p + Pos.to_nat p))%nat by lia.
    now rewrite Nat.iter_succ_r, Nat.iter_add.
  - rewrite !IH, Pos2Nat.inj_xO.
    replace (2 * Pos.to_nat p)%nat with (Pos.to_nat p + Pos.to_nat p)%nat by lia.
    now rewrite Nat.iter_add.
  - reflexivity.
Qed.

Lemma shr_1_spec (mrs : shr_record) :
  0 <= shr_m mrs ->
  shr_m (shr_1 mrs) = shr_m mrs / 2 /\
  (inexact (shr_1 mrs) = true <-> (shr_m mrs mod 2 <> 0 \/ inexact mrs = true)).
Proof.
  destruct mrs as [m r s]. unfold inexact. cbn [shr_m shr_r shr_s]. intros Hm.
  destruct m as [|[p|p|]|p]; try lia; cbn [shr_1 shr_m shr_r shr_s].
  - split; [reflexivity|]. rewrite orb_false_l. cbn. intuition congruence.
  - split.
    + rewrite Pos2Z.inj_xI. apply Z.div_unique with (r := 1); lia.
    + cbn [orb]. rewrite Pos2Z.inj_xI.
      replace ((2 * Z.pos p + 1) mod 2) with 1
        by (apply Z.mod_unique with (q := Z.pos p); lia).
      split; [intros _; left; lia|reflexivity].
  - split.
    + rewrite Pos2Z.inj_xO. apply Z.div_unique with (r := 0); lia.
    + rewrite orb_false_l. rewrite Pos2Z.inj_xO.
      replace ((2 * Z.pos p) mod 2) with 0
        by (apply Z.mod_unique with (q := Z.pos p); lia).
      intuition congruence.
  - split; [reflexivity|]. change (1 mod 2) with 1.
    split; [intros _; left; lia|reflexivity].
Qed.

Lemma shr_iter_spec (n : nat) (mrs : shr_record) :
  0 <= shr_m mrs ->
  shr_m (Nat.iter n shr_1 mrs) = shr_m mrs / 2 ^ Z.of_nat n /\
  (inexact (Nat.iter n shr_1 mrs) = true
   -> shr_m mrs mod 2 ^ Z.of_nat n <> 0 \/ inexact mrs = true).
Proof.
  intros Hm. induction n as [|n [IHm IHi]].
  - cbn. rewrite Z.div_1_r. auto.
  - rewrite Nat.iter_succ.
    assert (0 <= shr_m (Nat.iter n shr_1 mrs)) as Hn
      by (rewrite IHm; apply Z.div_pos; [lia|apply Z.pow_pos_nonneg; lia]).
    destruct (shr_1_spec _ Hn) as [H1 H2].
    rewrite Nat2Z.inj_succ, Z.pow_succ_r by lia.
    assert (0 < 2 ^ Z.of_nat n) as Hp by (apply Z.pow_pos_nonneg; lia).
    split.
    + rewrite H1, IHm. rewrite Z.div_div by lia. f_equal. lia.
    + intros Hi. apply H2 in Hi as [Hi|Hi].
      * left. rewrite IHm in Hi. intros Hz. apply Hi.
        pose proof (Z.div_mod (shr_m mrs) (2 * 2 ^ Z.of_nat n) ltac:(lia)) as E.
        rewrite Hz, Z.add_0_r in E.
        rewrite E at 1.
        replace (2 * 2 ^ Z.of_nat n * (shr_m mrs / (2 * 2 ^ Z.of_nat n)))
          with ((2 * (shr_m mrs / (2 * 2 ^ Z.of_nat n))) * 2 ^ Z.of_nat n) by lia.
        rewrite Z.div_mul by lia. rewrite Z.mul_comm. apply Z.mod_mul. lia.
      * apply IHi in Hi as [Hi|Hi]; [|now right]. left.
        intros Hz. apply Hi.
        pose proof (Z.div_mod (shr_m mrs) (2 * 2 ^ Z.of_nat n) ltac:(lia)) as E.
        rewrite Hz, Z.add_0_r in E. rewrite E.
        replace (2 * 2 ^ Z.of_nat n * (shr_m mrs / (2 * 2 ^ Z.of_nat n)))
          with ((2 * (shr_m mrs / (2 * 2 ^ Z.of_nat n))) * 2 ^ Z.of_nat n) by lia.
        apply Z.mod_mul. lia.
Qed.

Lemma digits2_pos_bounds (m : positive) :
  2 ^ (Z.pos (digits2_pos m) - 1) <= Z.pos m < 2 ^ Z.pos (digits2_pos m).
Proof.
  induction m as [m IH|m IH|]; cbn [digits2_pos].
  - rewrite Pos2Z.inj_succ. change (Z.pos m~1) with (2 * Z.pos m + 1).
    replace (Z.succ (Z.pos (digits2_pos m)) - 1) with (Z.succ (Z.pos (digits2_pos m) - 1)) by lia.
    rewrite !Z.pow_succ_r by lia.
    revert IH. generalize (2 ^ (Z.pos (digits2_pos m) - 1)) (2 ^ Z.pos (digits2_pos m)).
    intros; lia.
  - rewrite Pos2Z.inj_succ. change (Z.pos m~0) with (2 * Z.pos m).
    replace (Z.succ (Z.pos (digits2_pos m)) - 1) with (Z.succ (Z.pos (digits2_pos m) - 1)) by lia.
    rewrite !Z.pow_succ_r by lia.
    revert IH. generalize (2 ^ (Z.pos (digits2_pos m) - 1)) (2 ^ Z.pos (digits2_pos m)).
    intros; lia.
  - cbn. lia.
Qed.

Lemma fexp64 (x : Z) : fexp 53 1024 x = Z.max (x - 53) (-1074).
Proof. reflexivity. Qed.

Lemma Zdigits2_bounds (m : Z) :
  0 < m -> 2 ^ (Zdigits2 m - 1) <= m < 2 ^ Zdigits2 m.
Proof.
  destruct m as [|p|p]; try lia. intros _. apply digits2_pos_bounds.
Qed.

Lemma Zdigits2_nonneg (m : Z) : 0 <= Zdigits2 m.
Proof. destruct m; cbn; lia. Qed.

(** One normalisation step of an exact mantissa: a right shift by [q] bits,
    taken only when the exponent is below the one the format asks for. *)
Lemma shr_fexp_exact (m e : Z) :
  0 <= m ->
  exists (q : Z) (mrs : shr_record),
    shr_fexp 53 1024 m e loc_Exact = (mrs, e + q) /\
    0 <= q /\
    shr_m mrs = m / 2 ^ q /\
    (inexact mrs = true -> m mod 2 ^ q <> 0) /\
    (0 < q -> e + q = fexp 53 1024 (Zdigits2 m + e)).
Proof.
  intros Hm. unfold shr_fexp, shr. cbn [shr_record_of_loc].
  destruct (fexp 53 1024 (Zdigits2 m + e) - e) as [|p|p] eqn:Es.
  - exists 0, {| shr_m := m; shr_r := false; shr_s := false |}.
    rewrite Z.add_0_r, Z.pow_0_r, Z.div_1_r. repeat split; try lia.
    cbn. discriminate.
  - exists (Z.pos p), (SpecFloat.iter_pos shr_1 p {| shr_m := m; shr_r := false; shr_s := false |}).
    rewrite iter_pos_nat.
    destruct (shr_iter_spec (Pos.to_nat p)
                {| shr_m := m; shr_r := false; shr_s := false |} Hm) as [H1 H2].
    rewrite positive_nat_Z in H1, H2. cbn [shr_m] in H1, H2.
    repeat split; try lia; try assumption.
    intros Hi. destruct (H2 Hi) as [H|H]; [exact H|discriminate].
  - exists 0, {| shr_m := m; shr_r := false; shr_s := false |}.
    rewrite Z.add_0_r, Z.pow_0_r, Z.div_1_r. repeat split; try lia.
    cbn. discriminate.
Qed.

Lemma round_nearest_even_spec (mrs : shr_record) :
  shr_m mrs <= round_nearest_even (shr_m mrs) (loc_of_shr_record mrs)
            <= shr_m mrs + 1 /\
  (inexact mrs = false ->
   round_nearest_even (shr_m mrs) (loc_of_shr_record mrs) = shr_m mrs).
Proof.
  destruct mrs as [m [|] [|]]; unfold inexact; cbn; try destruct (Z.even m);
    split; try lia; try discriminate; reflexivity.
Qed.

(** The shape of a rounded product: two shifts around one rounding step. *)
Lemma binary_round_aux_form (sx : bool) (M : positive) (E : Z) :
  exists q1 q2 m1 m2 m3 : Z,
    binary_round_aux 53 1024 sx (Z.pos M) E loc_Exact
    = match m3 with
      | Z0 => S754_zero sx
      | Zpos m => if E + q1 + q2 <=? 971 then S754_finite sx m (E + q1 + q2)
                  else S754_infinity sx
      | Zneg _ => S754_nan
      end /\
    0 <= q1 /\ 0 <= q2 /\
    m1 = Z.pos M / 2 ^ q1 /\
    m1 <= m2 <= m1 + 1 /\
    (m2 = m1 + 1 -> Z.pos M mod 2 ^ q1 <> 0) /\
    m3 = m2 / 2 ^ q2 /\
    (0 < q1 -> E + q1 = fexp 53 1024 (Zdigits2 (Z.pos M) + E)) /\
    (0 < q2 -> E + q1 + q2 = fexp 53 1024 (Zdigits2 m2 + (E + q1))).
Proof.
  unfold binary_round_aux.
  destruct (shr_fexp_exact (Z.pos M) E ltac:(lia))
    as (q1 & mrs1 & -> & Hq1 & Hm1 & Hi1 & He1).
  destruct (round_nearest_even_spec mrs1) as [Hr1 Hr2].
  set (m2 := round_nearest_even (shr_m mrs1) (loc_of_shr_record mrs1)) in *.
  assert (0 <= shr_m mrs1) as Hm1pos
    by (rewrite Hm1; apply Z.div_pos; [lia|apply Z.pow_pos_nonneg; lia]).
  destruct (shr_fexp_exact m2 (E + q1) ltac:(lia))
    as (q2 & mrs2 & -> & Hq2 & Hm2 & _ & He2).
  exists q1, q2, (shr_m mrs1), m2, (shr_m mrs2).
  change (Z.sub 1024 53) with 971.
  repeat split; try assumption; try lia.
  intros Hm. apply Hi1. destruct (inexact mrs1) eqn:Ei; [reflexivity|].
  specialize (Hr2 eq_refl). lia.
Qed.

Lemma pow2_pos (a : Z) : 0 <= a -> 0 < 2 ^ a.
Proof. intros. apply Z.pow_pos_nonneg; lia. Qed.

Lemma pow2_lt_inv (a b : Z) : 0 <= b -> 2 ^ a < 2 ^ b -> a < b.
Proof. intros Hb H. apply (Z.pow_lt_mono_r_iff 2); lia. Qed.

Lemma pow2_le (a b : Z) : 0 <= a <= b -> 2 ^ a <= 2 ^ b.
Proof. intros. apply Z.pow_le_mono_r; lia. Qed.

(** Rounding does not cross an integer below 2^53: upper bound. *)
Lemma round_upper (sx : bool) (M : positive) (E n K : Z) :
  0 <= n < 2 ^ 53 -> 0 <= K -> 0 <= E + K ->
  Z.pos M * 2 ^ (E + K) <= n * 2 ^ K ->
  binary_round_aux 53 1024 sx (Z.pos M) E loc_Exact = S754_zero sx \/
  exists m e,
    binary_round_aux 53 1024 sx (Z.pos M) E loc_Exact = S754_finite sx m e /\
    E <= e /\ Z.pos m * 2 ^ (e + K) <= n * 2 ^ K.
Proof.
  intros Hn HK HEK Hx.
  destruct (binary_round_aux_form sx M E)
    as (q1 & q2 & m1 & m2 & m3 & -> & Hq1 & Hq2 & Hm1 & Hm2 & Hodd & Hm3 & He1 & He2).
  pose proof (pow2_pos (E + K) HEK) as HA. pose proof (pow2_pos q1 Hq1) as HQ1.
  pose proof (pow2_pos q2 Hq2) as HQ2. pose proof (pow2_pos K HK) as HPK.
  assert (Hm1pos : 0 <= m1) by (subst m1; apply Z.div_pos; lia).
  assert (Ha : m2 * (2 ^ (E + K) * 2 ^ q1) <= n * 2 ^ K).
  { pose proof (Z.div_mod (Z.pos M) (2 ^ q1) ltac:(lia)) as Hdm.
    pose proof (Z.mod_pos_bound (Z.pos M) (2 ^ q1) HQ1) as Hr.
    rewrite <- Hm1 in Hdm.
    destruct (Z.eq_dec m2 (m1 + 1)) as [Hup|Hup].
    - specialize (Hodd Hup).
      assert (0 < q1) as Hq1pos.
      { destruct (Z.eq_dec q1 0) as [->|]; [|lia].
        rewrite Z.pow_0_r, Z.mod_1_r in Hodd. congruence. }
      specialize (He1 Hq1pos). rewrite fexp64 in He1.
      pose proof (Zdigits2_bounds (Z.pos M) ltac:(lia)) as [Hd _].
      pose proof (Zdigits2_nonneg (Z.pos M)) as Hd0.
      assert (Zdigits2 (Z.pos M) + E <= 53) as Hdig.
      { assert (0 < Zdigits2 (Z.pos M)) by (cbn; lia).
        assert (2 ^ (Zdigits2 (Z.pos M) - 1 + (E + K)) < 2 ^ (53 + K)) as Hlt.
        { rewrite (Z.pow_add_r 2 (Zdigits2 (Z.pos M) - 1)), (Z.pow_add_r 2 53 K) by lia.
          apply Z.le_lt_trans with (Z.pos M * 2 ^ (E + K));
            [apply Z.mul_le_mono_nonneg_r; lia|].
          apply Z.le_lt_trans with (n * 2 ^ K); [exact Hx|].
          apply Z.mul_lt_mono_pos_r; lia. }
        apply pow2_lt_inv in Hlt; lia. }
      assert (E + q1 <= 0) as He1le by lia.
      assert (2 ^ K = 2 ^ (E + K) * 2 ^ q1 * 2 ^ (- (E + q1))) as HKsplit.
      { rewrite <- !Z.pow_add_r by lia. f_equal. lia. }
      pose proof (pow2_pos (- (E + q1)) ltac:(lia)) as HT.
      rewrite HKsplit in Hx |- *.
      set (A := 2 ^ (E + K)) in *. set (Q1 := 2 ^ q1) in *.
      set (T := 2 ^ (- (E + q1))) in *. set (r1 := Z.pos M mod Q1) in *.
      assert (Z.pos M <= n * T * Q1) by nia.
      assert (m1 + 1 <= n * T) by nia.
      subst m2. nia.
    - assert (m2 = m1) as -> by lia.
      set (A := 2 ^ (E + K)) in *. set (Q1 := 2 ^ q1) in *. nia. }
  assert (Hb : m3 * (2 ^ (E + K) * 2 ^ q1 * 2 ^ q2) <= n * 2 ^ K).
  { pose proof (Z.mul_div_le m2 (2 ^ q2) HQ2) as Hle. rewrite <- Hm3 in Hle.
    apply Z.le_trans with (m2 * (2 ^ (E + K) * 2 ^ q1)); [|exact Ha].
    replace (m3 * (2 ^ (E + K) * 2 ^ q1 * 2 ^ q2))
      with (2 ^ q2 * m3 * (2 ^ (E + K) * 2 ^ q1)) by ring.
    apply Z.mul_le_mono_nonneg_r; [|exact Hle].
    apply Z.mul_nonneg_nonneg; lia. }
  assert (Hm3pos : 0 <= m3) by (subst m3; apply Z.div_pos; lia).
  assert (Hpow : 2 ^ (E + q1 + q2 + K) = 2 ^ (E + K) * 2 ^ q1 * 2 ^ q2).
  { rewrite <- !Z.pow_add_r by lia. f_equal. lia. }
  destruct m3 as [|m|m]; [now left| |lia]. right.
  assert (E + q1 + q2 < 53) as Hfin.
  { assert (2 ^ (E + q1 + q2 + K) < 2 ^ (53 + K)) as Hlt.
    { rewrite Hpow, (Z.pow_add_r 2 53 K) by lia.
      apply Z.le_lt_trans with (n * 2 ^ K);
        [|apply Z.mul_lt_mono_pos_r; lia].
      apply Z.le_trans with (Z.pos m * (2 ^ (E + K) * 2 ^ q1 * 2 ^ q2));
        [|exact Hb].
      assert (0 < 2 ^ (E + K) * 2 ^ q1 * 2 ^ q2)
        by (repeat apply Z.mul_pos_pos; assumption).
      nia. }
    apply pow2_lt_inv in Hlt; lia. }
  replace (E + q1 + q2 <=? 971) with true by (symmetry; apply Z.leb_le; lia).
  exists m, (E + q1 + q2). split; [reflexivity|]. split; [lia|].
  now rewrite Hpow.
Qed.

(** Rounding does not cross an integer below 2^53: lower bound. *)
Lemma round_lower (sx : bool) (M : positive) (E n K : Z) :
  0 <= n < 2 ^ 53 -> 0 <= K -> 0 <= E + K ->
  n * 2 ^ K <= Z.pos M * 2 ^ (E + K) ->
  (binary_round_aux 53 1024 sx (Z.pos M) E loc_Exact = S754_zero sx /\ n = 0) \/
  binary_round_aux 53 1024 sx (Z.pos M) E loc_Exact = S754_infinity sx \/
  exists m e,
    binary_round_aux 53 1024 sx (Z.pos M) E loc_Exact = S754_finite sx m e /\
    E <= e /\ n * 2 ^ K <= Z.pos m * 2 ^ (e + K).
Proof.
  intros Hn HK HEK Hx.
  destruct (binary_round_aux_form sx M E)
    as (q1 & q2 & m1 & m2 & m3 & -> & Hq1 & Hq2 & Hm1 & Hm2 & Hodd & Hm3 & He1 & He2).
  pose proof (pow2_pos (E + K) HEK) as HA. pose proof (pow2_pos q1 Hq1) as HQ1.
  pose proof (pow2_pos q2 Hq2) as HQ2. pose proof (pow2_pos K HK) as HPK.
  assert (Hm1pos : 0 <= m1) by (subst m1; apply Z.div_pos; lia).
  assert (Hm3pos : 0 <= m3) by (subst m3; apply Z.div_pos; lia).
  assert (Hpow : 2 ^ (E + q1 + q2 + K) = 2 ^ (E + K) * 2 ^ q1 * 2 ^ q2).
  { rewrite <- !Z.pow_add_r by lia. f_equal. lia. }
  assert (Hm13 : m1 / 2 ^ q2 <= m3).
  { subst m3. apply Z.div_le_mono; lia. }
  assert (Hbound : n * 2 ^ K <= m3 * 2 ^ (E + q1 + q2 + K)).
  { destruct (Z_le_gt_dec (E + q1 + q2) 0) as [He3|He3].
    - (* the result lies on a grid that contains every integer *)
      pose proof (pow2_pos (- (E + q1 + q2)) ltac:(lia)) as HT.
      assert (2 ^ K = 2 ^ (E + q1 + q2 + K) * 2 ^ (- (E + q1 + q2))) as HKsplit.
      { rewrite <- Z.pow_add_r by lia. f_equal. lia. }
      assert (n * 2 ^ (- (E + q1 + q2)) <= m3) as Hle.
      { apply Z.le_trans with (m1 / 2 ^ q2); [|exact Hm13].
        subst m1. rewrite Z.div_div by lia.
        apply Z.div_le_lower_bound; [apply Z.mul_pos_pos; lia|].
        apply Z.mul_le_mono_pos_r with (p := 2 ^ (E + K)); [lia|].
        apply Z.le_trans with (n * 2 ^ K); [|exact Hx].
        rewrite HKsplit, Hpow. apply Z.eq_le_incl. ring. }
      rewrite HKsplit.
      replace (n * (2 ^ (E + q1 + q2 + K) * 2 ^ (- (E + q1 + q2))))
        with (n * 2 ^ (- (E + q1 + q2)) * 2 ^ (E + q1 + q2 + K)) by ring.
      apply Z.mul_le_mono_nonneg_r; [|exact Hle]. rewrite Hpow.
      repeat apply Z.mul_nonneg_nonneg; lia.
    - (* the result is at least 2^53, or nothing was shifted out *)
      assert (Hfinish : 2 ^ 52 <= m3 -> n * 2 ^ K <= m3 * 2 ^ (E + q1 + q2 + K)).
      { intros Hbig.
        apply Z.le_trans with (2 ^ 53 * 2 ^ K);
          [apply Z.mul_le_mono_nonneg_r; lia|].
        apply Z.le_trans with (2 ^ 52 * 2 ^ (E + q1 + q2 + K));
          [|apply Z.mul_le_mono_nonneg_r; [apply Z.pow_nonneg|]; lia].
        assert (2 ^ (1 + K) <= 2 ^ (E + q1 + q2 + K)) as Hp by (apply pow2_le; lia).
        rewrite Z.pow_add_r in Hp by lia. change (2 ^ 1) with 2 in Hp.
        change (2 ^ 53) with (2 ^ 52 * 2).
        rewrite <- Z.mul_assoc. apply Z.mul_le_mono_nonneg_l; lia. }
      assert (q2 = 0 \/ 0 < q2) as [Hq20|Hq20] by lia;
        [assert (q1 = 0 \/ 0 < q1) as [Hq10|Hq10] by lia|].
      + subst q1 q2. rewrite Z.pow_0_r, Z.div_1_r in Hm1, Hm3.
        rewrite Z.pow_0_r, Z.mod_1_r in Hodd.
        assert (m2 = m1) by (destruct (Z.eq_dec m2 (m1 + 1)) as [H|H];
                             [specialize (Hodd H); congruence|lia]).
        subst. now rewrite !Z.add_0_r.
      + apply Hfinish.
        specialize (He1 Hq10). rewrite fexp64 in He1.
        pose proof (Zdigits2_bounds (Z.pos M) ltac:(lia)) as [Hd _].
        assert (Zdigits2 (Z.pos M) - 1 = 52 + q1) as Hdq by lia.
        rewrite Hdq, Z.pow_add_r in Hd by lia.
        assert (2 ^ 52 <= m1)
          by (subst m1; apply Z.div_le_lower_bound; lia).
        subst q2. rewrite Z.pow_0_r, Z.div_1_r in Hm3. lia.
      + apply Hfinish.
        specialize (He2 Hq20). rewrite fexp64 in He2.
        assert (0 < m2) as Hm2pos.
        { destruct (Z.eq_dec m2 0) as [->|]; [cbn in He2; lia|lia]. }
        pose proof (Zdigits2_bounds m2 Hm2pos) as [Hd _].
        assert (Zdigits2 m2 - 1 = 52 + q2) as Hdq by lia.
        rewrite Hdq, Z.pow_add_r in Hd by lia.
        subst m3. apply Z.div_le_lower_bound; lia. }
  destruct m3 as [|m|m]; [|right|lia].
  - left. split; [reflexivity|]. rewrite Z.mul_0_l in Hbound. nia.
  - destruct (E + q1 + q2 <=? 971); [right|now left].
    exists m, (E + q1 + q2). split; [reflexivity|]. split; [lia|exact Hbound].
Qed.

Lemma py_int_finite (m : positive) (e K : Z) :
  0 <= K -> 0 <= e + K ->
  py_int (S754_finite false m e) = Ok (Z.pos m * 2 ^ (e + K) / 2 ^ K).
Proof.
  intros HK HeK. unfold py_int. f_equal.
  pose proof (pow2_pos K HK) as HPK.
  destruct e as [|p|p].
  - rewrite Z.shiftl_0_r, Z.add_0_l. symmetry. apply Z.div_mul. lia.
  - rewrite Z.shiftl_mul_pow2 by lia.
    rewrite Z.pow_add_r, Z.mul_assoc by lia. symmetry. apply Z.div_mul. lia.
  - rewrite Z.shiftr_div_pow2 by lia.
    assert (2 ^ K = 2 ^ (Z.neg p + K) * 2 ^ Z.pos p) as ->.
    { rewrite <- Z.pow_add_r by lia. f_equal. lia. }
    pose proof (pow2_pos (Z.neg p + K) HeK).
    rewrite Z.mul_comm, Z.div_mul_cancel_l; lia.
Qed.

Lemma pos_iter_xO (m d : positive) :
  Z.pos (Pos.iter xO m d) = Z.pos m * 2 ^ Z.pos d.
Proof.
  induction d as [|d IH] using Pos.peano_ind.
  - cbn. lia.
  - rewrite Pos.iter_succ, Pos2Z.inj_succ, Z.pow_succ_r by lia.
    change (Z.pos (Pos.iter xO m d)~0) with (2 * Z.pos (Pos.iter xO m d)).
    rewrite IH. ring.
Qed.

(** Integers below 2^53 convert to floats without rounding. *)
Lemma b64_of_Z_exact (n : Z) :
  0 < n < 2 ^ 53 ->
  exists m e,
    b64_of_Z n = S754_finite false m e /\ -52 <= e /\
    Z.pos m * 2 ^ (e + 52) = n * 2 ^ 52.
Proof.
  intros Hn. destruct n as [|p|p]; try lia.
  unfold b64_of_Z, binary_normalize, binary_round.
  pose proof (digits2_pos_bounds p) as [Hd1 Hd2].
  assert (Z.pos (digits2_pos p) <= 53) as Hd.
  { assert (2 ^ (Z.pos (digits2_pos p) - 1) < 2 ^ 53) as Hlt by lia.
    apply pow2_lt_inv in Hlt; lia. }
  rewrite Z.add_0_r, fexp64.
  replace (Z.max (Z.pos (digits2_pos p) - 53) (-1074))
    with (Z.pos (digits2_pos p) - 53) by lia.
  set (ez := Z.pos (digits2_pos p) - 53) in *.
  assert (exists mz, shl_align p 0 ez = (mz, ez)
                     /\ Z.pos mz * 2 ^ (ez + 52) = Z.pos p * 2 ^ 52)
    as (mz & -> & Hmz).
  { unfold shl_align. rewrite Z.sub_0_r.
    destruct ez as [|q|q] eqn:Eq; try lia.
    - exists p. split; [reflexivity|]. reflexivity.
    - exists (Pos.iter xO p q). split; [reflexivity|].
      rewrite pos_iter_xO, <- Z.mul_assoc, <- Z.pow_add_r by lia.
      do 2 f_equal. lia. }
  destruct (round_upper false mz ez (Z.pos p) 52) as [Hz|(m & e & Hr & He & Hle)];
    try lia.
  { destruct (round_lower false mz ez (Z.pos p) 52)
      as [[_ H0]|[Hi|(m & e & Hr & _)]]; try lia; congruence. }
  destruct (round_lower false mz ez (Z.pos p) 52)
    as [[_ H0]|[Hi|(m' & e' & Hr' & _ & Hge)]]; try lia; try congruence.
  rewrite Hr in Hr'. injection Hr' as <- <-.
  exists m, e. split; [exact Hr|]. split; lia.
Qed.

Lemma b64_of_Z_zero : b64_of_Z 0 = S754_zero false.
Proof. reflexivity. Qed.

Lemma pos_compare_cont_lt (m c : positive) :
  PosDef.Pos.compare_cont Eq m c = Lt -> Z.pos m < Z.pos c.
Proof. intros H. apply Pos2Z.pos_lt_pos. exact H. Qed.

Lemma pos_compare_cont_eq (m c : positive) :
  PosDef.Pos.compare_cont Eq m c = Eq -> m = c.
Proof. intros H. apply Pos.compare_eq. exact H. Qed.

(** A valid float in [0, 1]. *)
Lemma unit_interval_cases (x : float64) :
  b64_valid x = true -> b64_le b64_zero x = true -> b64_le x b64_one = true ->
  (exists s, x = S754_zero s) \/
  exists m e, x = S754_finite false m e /\ -1074 <= e <= -52 /\
              Z.pos m <= 2 ^ (- e).
Proof.
  unfold b64_valid, b64_le, b64_zero, b64_one, SFleb.
  destruct x as [s|s| |s m e]; cbn [SFcompare valid_binary]; intros Hv H0 H1.
  - left. eauto.
  - destruct s; discriminate.
  - discriminate.
  - right. destruct s; [discriminate|]. exists m, e. split; [reflexivity|].
    unfold bounded, canonical_mantissa in Hv.
    apply andb_true_iff in Hv as [Hc _]. apply Z.eqb_eq in Hc.
    rewrite fexp64 in Hc.
    pose proof (digits2_pos_bounds m) as [_ Hd].
    destruct (Z.compare_spec e (-52)) as [->|Hlt|Hgt]; [| |discriminate];
      (split; [lia|]).
    + change (2 ^ (- -52)) with 4503599627370496.
      destruct (PosDef.Pos.compare_cont Eq m 4503599627370496) eqn:Ec;
        [| |discriminate].
      * apply pos_compare_cont_eq in Ec. subst m. lia.
      * apply pos_compare_cont_lt in Ec. lia.
    + assert (Z.pos (digits2_pos m) <= 53) by lia.
      apply Z.lt_le_incl, Z.lt_le_trans with (2 ^ Z.pos (digits2_pos m));
        [exact Hd|]. apply pow2_le. lia.
Qed.

(** A valid float above 1. *)
Lemma above_one_cases (x : float64) :
  b64_valid x = true -> b64_lt b64_one x = true ->
  x = S754_infinity false \/
  exists m e, x = S754_finite false m e /\ -52 <= e /\ 2 ^ 52 <= Z.pos m.
Proof.
  unfold b64_valid, b64_lt, b64_one, SFltb.
  destruct x as [s|s| |s m e]; cbn [SFcompare valid_binary]; intros Hv H1.
  - discriminate.
  - destruct s; [discriminate|now left].
  - discriminate.
  - right. destruct s; [discriminate|]. exists m, e. split; [reflexivity|].
    unfold bounded, canonical_mantissa in Hv.
    apply andb_true_iff in Hv as [Hc _]. apply Z.eqb_eq in Hc.
    rewrite fexp64 in Hc.
    pose proof (digits2_pos_bounds m) as [Hd _].
    destruct (Z.compare_spec (-52) e) as [<-|Hlt|Hgt]; [| |discriminate].
    + assert (Z.pos (digits2_pos m) = 53) as Hd53 by lia.
      rewrite Hd53 in Hd. split; [lia|exact Hd].
    + assert (Z.pos (digits2_pos m) = 53) as Hd53 by lia.
      rewrite Hd53 in Hd. split; [lia|exact Hd].
Qed.

(** For a ratio in [0, 1] the count is computed, and lies between 0 and
    the wakeword count. *)
Lemma keep_count_unit_interval (keep_ratio : float64) (nw : Z) :
  b64_valid keep_ratio = true ->
  b64_le b64_zero keep_ratio = true -> b64_le keep_ratio b64_one = true ->
  0 <= nw < 2 ^ 53 ->
  exists k, keep_count keep_ratio nw = Ok k /\ 0 <= k <= nw.
Proof.
  intros Hv H0 H1 Hnw. unfold keep_count, py_float_of_int.
  destruct (unit_interval_cases _ Hv H0 H1) as [[s ->]|(mk & ek & -> & Hek & Hmk)].
  - destruct (Z.eq_dec nw 0) as [->|Hne].
    + exists 0. rewrite b64_of_Z_zero. cbn. split; [reflexivity|lia].
    + destruct (b64_of_Z_exact nw ltac:(lia)) as (mf & ef & -> & _).
      exists 0. cbn. split; [reflexivity|lia].
  - destruct (Z.eq_dec nw 0) as [->|Hne].
    + exists 0. rewrite b64_of_Z_zero. cbn. split; [reflexivity|lia].
    + destruct (b64_of_Z_exact nw ltac:(lia)) as (mf & ef & -> & Hef & Hmf).
      unfold b64_mul. cbn [SFmul xorb].
      assert (Z.pos (mk * mf) * 2 ^ (ek + ef + (1074 + 52)) <= nw * 2 ^ (1074 + 52))
        as Hx.
      { replace (ek + ef + (1074 + 52)) with ((ek + 1074) + (ef + 52)) by lia.
        rewrite Pos2Z.inj_mul, (Z.pow_add_r 2 (ek + 1074)),
          (Z.pow_add_r 2 1074 52) by lia.
        replace (Z.pos mk * Z.pos mf * (2 ^ (ek + 1074) * 2 ^ (ef + 52)))
          with ((Z.pos mk * 2 ^ (ek + 1074)) * (Z.pos mf * 2 ^ (ef + 52))) by ring.
        rewrite Hmf.
        replace (nw * (2 ^ 1074 * 2 ^ 52)) with (2 ^ 1074 * (nw * 2 ^ 52)) by ring.
        apply Z.mul_le_mono_nonneg_r; [apply Z.mul_nonneg_nonneg; lia|].
        replace (2 ^ 1074) with (2 ^ (- ek) * 2 ^ (ek + 1074))
          by (rewrite <- Z.pow_add_r by lia;
              replace (- ek + (ek + 1074)) with 1074 by lia; reflexivity).
        apply Z.mul_le_mono_nonneg_r; [apply Z.pow_nonneg; lia|exact Hmk]. }
      destruct (round_upper false (mk * mf) (ek + ef) nw (1074 + 52))
        as [->|(m & e & -> & He & Hle)]; try lia.
      * exists 0. cbn. split; [reflexivity|lia].
      * rewrite (py_int_finite m e (1074 + 52)) by lia.
        eexists. split; [reflexivity|]. split.
        -- apply Z.div_pos; [|apply pow2_pos; lia].
           apply Z.mul_nonneg_nonneg; [lia|apply Z.pow_nonneg; lia].
        -- apply Z.div_le_upper_bound; [apply pow2_pos; lia|].
           rewrite (Z.mul_comm _ nw). exact Hle.
Qed.

(** For a ratio above 1, a count that can be computed is at least the
    wakeword count. *)
Lemma keep_count_above_one (keep_ratio : float64) (nw k : Z) :
  b64_valid keep_ratio = true -> b64_lt b64_one keep_ratio = true ->
  0 <= nw < 2 ^ 53 ->
  keep_count keep_ratio nw = Ok k -> nw <= k.
Proof.
  intros Hv H1 Hnw. unfold keep_count, py_float_of_int.
  destruct (Z.eq_dec nw 0) as [->|Hne].
  { rewrite b64_of_Z_zero.
    destruct (above_one_cases _ Hv H1) as [->|(mk & ek & -> & _)]; cbn;
      [discriminate|]. intros [= <-]. lia. }
  destruct (b64_of_Z_exact nw ltac:(lia)) as (mf & ef & -> & Hef & Hmf).
  destruct (above_one_cases _ Hv H1) as [->|(mk & ek & -> & Hek & Hmk)];
    [cbn; discriminate|].
  unfold b64_mul. cbn [SFmul xorb].
  assert (nw * 2 ^ (52 + 52) <= Z.pos (mk * mf) * 2 ^ (ek + ef + (52 + 52))) as Hx.
  { replace (ek + ef + (52 + 52)) with ((ek + 52) + (ef + 52)) by lia.
    rewrite Pos2Z.inj_mul, (Z.pow_add_r 2 (ek + 52)),
      (Z.pow_add_r 2 52 52) by lia.
    replace (Z.pos mk * Z.pos mf * (2 ^ (ek + 52) * 2 ^ (ef + 52)))
      with ((Z.pos mk * 2 ^ (ek + 52)) * (Z.pos mf * 2 ^ (ef + 52))) by ring.
    rewrite Hmf.
    replace (nw * (2 ^ 52 * 2 ^ 52)) with (2 ^ 52 * (nw * 2 ^ 52)) by ring.
    apply Z.mul_le_mono_nonneg_r; [apply Z.mul_nonneg_nonneg; lia|].
    pose proof (pow2_pos (ek + 52) ltac:(lia)). nia. }
  destruct (round_lower false (mk * mf) (ek + ef) nw (52 + 52))
    as [[_ H0]|[->|(m & e & -> & He & Hle)]]; try lia.
  - cbn. discriminate.
  - rewrite (py_int_finite m e (52 + 52)) by lia. intros [= <-].
    apply Z.div_le_lower_bound; [apply pow2_pos; lia|].
    rewrite (Z.mul_comm _ nw). exact Hle.
Qed.

(** With ratio [0.0] the count, when it can be computed, is 0. *)
Lemma keep_count_zero (s : bool) (nw k : Z) :
  keep_count (S754_zero s) nw = Ok k -> k = 0.
Proof.
  unfold keep_count, py_float_of_int.
  destruct (b64_of_Z nw) as [s'|s'| |s' m e]; cbn; congruence.
Qed.

(** The count never fails with an index error. *)
Lemma keep_count_errors (keep_ratio : float64) (nw : Z) (e : exn) :
  keep_count keep_ratio nw = Raise e -> e = OverflowError \/ e = ValueError.
Proof.
  unfold keep_count, py_float_of_int.
  destruct (b64_of_Z nw) as [s'|s'| |s' m' e'];
    [| intros [= <-]; now left | |];
    (destruct (b64_mul keep_ratio _) as [s|s| |s m e0]; cbn; intros [= <-]; auto).
Qed.

(** ** Pruning *)

Lemma wakewords_others_Permutation (d : list entry) :
  others_of d ++ wakewords_of d ≡ₚ d.
Proof.
  unfold others_of, wakewords_of. rewrite Permutation_app_comm.
  apply filter_app_complement.
Qed.

(** A loader fresh from [__init__] holds exactly [num_wakewords] positive
    records when the [is_hotword] attributes fit a [uint8]. *)
Lemma load_entries_count (base : nat) (store : list h5group) :
  Forall (fun g => 0 <= is_hotword g < 256) store ->
  count_wakewords (load_entries base store) = count_hotwords store.
Proof.
  intros H. revert base. induction H as [|g store Hg _ IH]; intros base.
  - reflexivity.
  - cbn [load_entries]. rewrite count_hotwords_cons, <- (IH (S base)).
    unfold count_wakewords. rewrite filter_cons.
    case_decide as Hd; unfold is_wakeword, np_uint8 in Hd; cbn [label] in Hd;
      rewrite Z.mod_small in Hd by exact Hg;
      destruct (is_hotword g =? 1); try congruence; cbn [length]; lia.
Qed.

Lemma init_holds_all_wakewords (store : list h5group) (bs nf : Z) (sh : bool)
    (w0 : world) :
  bs <> 0 ->
  Forall (fun g => 0 <= is_hotword g < 256) store ->
  count_wakewords (dataset (self (fst (__init__ store bs nf sh w0))))
  = num_wakewords (self (fst (__init__ store bs nf sh w0))).
Proof.
  intros Hbs Hstore. rewrite (init_run store bs nf sh w0 Hbs). cbn.
  now apply load_entries_count.
Qed.

(** Pruning never adds positive records, whatever its outcome. *)
Lemma prune_count_le (keep_ratio : float64) (w : world) :
  count_wakewords (dataset (self (fst (prune_wakewords keep_ratio w))))
  <= count_wakewords (dataset (self w)).
Proof.
  destruct (prune_run keep_ratio w) as (g1 & wk & Hwk & Hrun).
  destruct (keep_count keep_ratio (num_wakewords (self w))) as [k|e].
  - destruct Hrun as (g2 & d' & Hd' & ->).
    destruct (pruned_dataset_count _ _ _ k Hwk Hd') as [Hcount _].
    assert (count_wakewords d' <= count_wakewords (dataset (self w))) as Hle.
    { rewrite Hcount. unfold count_wakewords. destruct (k <? 0) eqn:Hk; [|lia].
      apply Z.ltb_lt in Hk. lia. }
    destruct (py_floordiv _ _); exact Hle.
  - rewrite Hrun. cbn. rewrite count_wakewords_others.
    unfold count_wakewords. lia.
Qed.

Lemma second_prune_retains_fewer :
  num_wakewords (self (fst (prune_wakewords b64_half sample_world))) = 3 /\
  keep_count b64_one 3 = Ok 3 /\
  snd (prune_wakewords b64_one (fst (prune_wakewords b64_half sample_world)))
  = Ok tt /\
  count_wakewords
    (dataset (self (fst (prune_wakewords b64_one
                           (fst (prune_wakewords b64_half sample_world))))))
  = 1.
Proof. vm_compute. repeat split. Qed.

(** C3 (amended). For every keep_ratio in [0, 1], [prune_wakewords] returns
    and retains min(k, p) positive records, where
    k = int(keep_ratio * num_wakewords), between 0 and num_wakewords, is
    computed from the frozen load-time count and p is the number of
    positive records present when it is called. On a loader that still
    holds all its num_wakewords positives this is exactly k; after an
    earlier pruning fewer than k may be left to retain. *)
Theorem prune_retains_min_of_baseline_count (w : world) (keep_ratio : float64) :
  b64_valid keep_ratio = true ->
  b64_le b64_zero keep_ratio = true ->
  b64_le keep_ratio b64_one = true ->
  0 <= num_wakewords (self w) < 2 ^ 53 ->
  batch_size (self w) <> 0 ->
  exists (k : Z) (w' : world),
    keep_count keep_ratio (num_wakewords (self w)) = Ok k /\
    0 <= k <= num_wakewords (self w) /\
    prune_wakewords keep_ratio w = (w', Ok tt) /\
    num_wakewords (self w') = num_wakewords (self w) /\
    count_wakewords (dataset (self w'))
    = Z.min k (count_wakewords (dataset (self w))) /\
    (count_wakewords (dataset (self w)) = num_wakewords (self w) ->
     count_wakewords (dataset (self w')) = k).
Proof.
  intros Hv H0 H1 Hnw Hbs.
  destruct (keep_count_unit_interval keep_ratio _ Hv H0 H1 Hnw) as (k & Hk & Hk01).
  destruct (prune_returns keep_ratio w k Hk Hbs) as (g & d' & wk & Hwk & Hd' & Hrun).
  destruct (pruned_dataset_count _ _ _ k Hwk Hd') as [Hcount _].
  replace (k <? 0) with false in Hcount by (symmetry; apply Z.ltb_ge; lia).
  eexists k, _. split; [exact Hk|]. split; [exact Hk01|].
  split; [exact Hrun|]. cbn [self set_num_batches set_dataset num_wakewords dataset].
  split; [reflexivity|]. split; [exact Hcount|].
  intros Hfresh. rewrite Hcount, Hfresh. lia.
Qed.

Lemma prune_retains_min_of_baseline_count_witness :
  exists (k : Z) (w' : world),
    keep_count b64_half (num_wakewords (self sample_world)) = Ok k /\
    prune_wakewords b64_half sample_world = (w', Ok tt) /\
    count_wakewords (dataset (self w')) = k.
Proof.
  destruct (prune_retains_min_of_baseline_count sample_world b64_half)
    as (k & w' & Hk & _ & Hrun & _ & _ & Hfresh).
  - reflexivity.
  - reflexivity.
  - reflexivity.
  - split; now vm_compute.
  - now vm_compute.
  - exists k, w'. split; [exact Hk|]. split; [exact Hrun|].
    apply Hfresh. now vm_compute.
Defined.

(** C5. After [prune_wakewords(0.0)] the dataset holds no record with label
    1; the call returns on every loader whose batch size is not zero and
    whose wakeword count is a non-negative integer below 2^53. *)
Theorem prune_zero_leaves_no_wakeword (w : world) :
  count_wakewords (dataset (self (fst (prune_wakewords b64_zero w)))) = 0 /\
  (0 <= num_wakewords (self w) < 2 ^ 53 ->
   batch_size (self w) <> 0 ->
   snd (prune_wakewords b64_zero w) = Ok tt).
Proof.
  split.
  - destruct (prune_run b64_zero w) as (g1 & wk & Hwk & Hrun).
    destruct (keep_count b64_zero (num_wakewords (self w))) as [k|e] eqn:Hk.
    + apply keep_count_zero in Hk. subst k.
      destruct Hrun as (g2 & d' & Hd' & ->).
      destruct (pruned_dataset_count _ _ _ 0 Hwk Hd') as [Hcount _].
      cbn [Z.ltb Z.compare] in Hcount.
      assert (count_wakewords d' = 0) as Hzero.
      { rewrite Hcount. unfold count_wakewords. lia. }
      destruct (py_floordiv _ _); exact Hzero.
    + rewrite Hrun. cbn. apply count_wakewords_others.
  - intros Hnw Hbs.
    destruct (keep_count_unit_interval b64_zero _ eq_refl eq_refl eq_refl Hnw)
      as (k & Hk & _).
    destruct (prune_returns b64_zero w k Hk Hbs) as (g & d' & wk & _ & _ & ->).
    reflexivity.
Qed.

Lemma prune_zero_leaves_no_wakeword_witness :
  snd (prune_wakewords b64_zero sample_world) = Ok tt /\
  count_wakewords (dataset (self (fst (prune_wakewords b64_zero sample_world))))
  = 0.
Proof.
  split.
  - apply (proj2 (prune_zero_leaves_no_wakeword sample_world)).
    + split; now vm_compute.
    + now vm_compute.
  - exact (proj1 (prune_zero_leaves_no_wakeword sample_world)).
Defined.

Lemma huge_keep_ratio_raises :
  b64_valid b64_huge = true /\
  b64_lt b64_one b64_huge = true /\
  snd (prune_wakewords b64_huge sample_world) = Raise OverflowError /\
  length (dataset (self sample_world)) = 5%nat /\
  length (dataset (self (fst (prune_wakewords b64_huge sample_world)))) = 2%nat.
Proof. vm_compute. repeat split. Qed.

(** C8 (amended). [prune_wakewords] does not validate keep_ratio and never
    raises an index error: it returns, or raises what [int] raises on an
    infinite or NaN product (or ZeroDivisionError on a zero batch size).
    Whenever the count k = int(keep_ratio * num_wakewords) can be computed
    it returns and silently retains as many positives as the slice [:k]
    selects among the p present: min(k, p) for k >= 0, max(0, p + k) for
    k < 0. For every keep_ratio > 1 whose product is finite, k is at least
    num_wakewords, all positives are retained and the record list is a
    permutation of the one before. When the product is not finite the
    call raises after the positives have been removed. *)
Theorem prune_unvalidated_keep_ratio (w : world) (keep_ratio : float64) :
  (snd (prune_wakewords keep_ratio w) = Ok tt \/
   snd (prune_wakewords keep_ratio w) = Raise OverflowError \/
   snd (prune_wakewords keep_ratio w) = Raise ValueError \/
   snd (prune_wakewords keep_ratio w) = Raise ZeroDivisionError) /\
  (forall k : Z,
     keep_count keep_ratio (num_wakewords (self w)) = Ok k ->
     batch_size (self w) <> 0 ->
     exists w',
       prune_wakewords keep_ratio w = (w', Ok tt) /\
       count_wakewords (dataset (self w'))
       = (if k <? 0 then Z.max 0 (count_wakewords (dataset (self w)) + k)
          else Z.min k (count_wakewords (dataset (self w)))) /\
       others_of (dataset (self w')) ≡ₚ others_of (dataset (self w))) /\
  (forall k : Z,
     b64_valid keep_ratio = true ->
     b64_lt b64_one keep_ratio = true ->
     0 <= num_wakewords (self w) < 2 ^ 53 ->
     count_wakewords (dataset (self w)) <= num_wakewords (self w) ->
     batch_size (self w) <> 0 ->
     keep_count keep_ratio (num_wakewords (self w)) = Ok k ->
     exists w',
       prune_wakewords keep_ratio w = (w', Ok tt) /\
       dataset (self w') ≡ₚ dataset (self w) /\
       length (dataset (self w')) = length (dataset (self w))) /\
  (forall e : exn,
     keep_count keep_ratio (num_wakewords (self w)) = Raise e ->
     snd (prune_wakewords keep_ratio w) = Raise e /\
     dataset (self (fst (prune_wakewords keep_ratio w)))
     = others_of (dataset (self w))).
Proof.
  split; [|split; [|split]].
  - destruct (prune_run keep_ratio w) as (g1 & wk & Hwk & Hrun).
    destruct (keep_count keep_ratio (num_wakewords (self w))) as [k|e] eqn:Hk.
    + destruct Hrun as (g2 & d' & Hd' & ->). unfold py_floordiv.
      destruct (_ =? 0); cbn; auto.
    + rewrite Hrun. cbn.
      destruct (keep_count_errors _ _ _ Hk) as [->| ->]; auto.
  - intros k Hk Hbs.
    destruct (prune_returns keep_ratio w k Hk Hbs) as (g & d' & wk & Hwk & Hd' & ->).
    eexists. split; [reflexivity|].
    cbn [self set_num_batches set_dataset dataset].
    now apply pruned_dataset_count with (wk := wk).
  - intros k Hv H1 Hnw Hinv Hbs Hk.
    pose proof (keep_count_above_one keep_ratio _ k Hv H1 Hnw Hk) as Hge.
    destruct (prune_returns keep_ratio w k Hk Hbs) as (g & d' & wk & Hwk & Hd' & ->).
    eexists. split; [reflexivity|].
    cbn [self set_num_batches set_dataset dataset].
    assert (d' ≡ₚ dataset (self w)) as Hperm.
    { rewrite Hd', py_slice_to_all, Hwk; [apply wakewords_others_Permutation|].
      rewrite (Permutation_length Hwk). unfold count_wakewords in Hinv.
      unfold wakewords_of. lia. }
    split; [exact Hperm|]. now rewrite Hperm.
  - intros e Hk.
    destruct (prune_run keep_ratio w) as (g1 & wk & Hwk & Hrun).
    rewrite Hk in Hrun. rewrite Hrun. split; reflexivity.
Qed.

Lemma prune_unvalidated_keep_ratio_witness :
  (exists w', prune_wakewords b64_two sample_world = (w', Ok tt) /\
              length (dataset (self w')) = length (dataset (self sample_world))) /\
  snd (prune_wakewords b64_huge sample_world) = Raise OverflowError.
Proof.
  split.
  - destruct (proj1 (proj2 (proj2 (prune_unvalidated_keep_ratio sample_world b64_two)))
                6)
      as (w' & Hrun & _ & Hlen).
    + reflexivity.
    + reflexivity.
    + split; now vm_compute.
    + now vm_compute.
    + now vm_compute.
    + now vm_compute.
    + exists w'. split; [exact Hrun|exact Hlen].
  - apply (proj2 (proj2 (proj2 (prune_unvalidated_keep_ratio sample_world b64_huge)))
             OverflowError).
    now vm_compute.
Defined.

(** ** The example of ten records

    Three wakewords at positions 2, 5 and 7 and batches of four: two
    batches; the removal pass deletes 7, 5, 2 and leaves the seven other
    records in order; pruning with ratio 0.5 keeps int(0.5 * 3) = 1
    wakeword, eight records and again two batches. *)

Example ten_records_length : snd (__len__ ten_world) = Ok 2.
Proof. reflexivity. Qed.

Example ten_records_idxs : snd (find_wakeword_idxs ten_world) = Ok [2; 5; 7].
Proof. reflexivity. Qed.

Example ten_records_removal :
  map file_name (dataset (self (fst (move_wakewords [2; 5; 7] ten_world))))
  = ["r0"; "r1"; "r3"; "r4"; "r6"; "r8"; "r9"]%string /\
  (match snd (move_wakewords [2; 5; 7] ten_world) with
   | Ok wakewords => map file_name wakewords
   | Raise _ => []
   end) = ["r7"; "r5"; "r2"]%string.
Proof. vm_compute. split; reflexivity. Qed.

Example ten_records_pruned :
  snd (prune_wakewords b64_half ten_world) = Ok tt /\
  length (dataset (self (fst (prune_wakewords b64_half ten_world)))) = 8%nat /\
  count_wakewords (dataset (self (fst (prune_wakewords b64_half ten_world)))) = 1 /\
  num_batches (self (fst (prune_wakewords b64_half ten_world))) = 2 /\
  num_wakewords (self (fst (prune_wakewords b64_half ten_world))) = 3.
Proof. vm_compute. repeat split. Qed.

(** * Further properties of the loader *)

(** ** What construction loads *)

Lemma load_entries_lookup (base : nat) (store : list h5group) (i : nat) :
  load_entries base store !! i = entry_of (base + i) <$> store !! i.
Proof.
  revert base i. induction store as [|g store IH]; intros base [|i];
    cbn [load_entries]; try reflexivity.
  - cbn. now rewrite Nat.add_0_r.
  - cbn [lookup list_lookup]. rewrite IH. now rewrite Nat.add_succ_comm.
Qed.

Lemma load_entries_map {B} (f : entry -> B) (g : h5group -> B) (base : nat)
    (store : list h5group) :
  (forall l x, f (entry_of l x) = g x) ->
  map f (load_entries base store) = map g store.
Proof.
  intros H. revert base. induction store as [|x store IH]; intros base;
    [reflexivity|].
  cbn [load_entries map]. f_equal; [apply (H base x)|apply IH].
Qed.

Lemma wf_store_world (store : list h5group) (h : list ndarray) (w : world) :
  wf_store store = true ->
  heap w = h ++ map (fun g => Arr2 (payload g)) store ->
  dataset (self w) = load_entries (length h) store ->
  wf_world w = true.
Proof.
  intros Hst Hh Hd. unfold wf_world. rewrite Hd. apply forallb_forall.
  intros e He. apply list_elem_of_In, list_elem_of_lookup in He as [i Hi].
  rewrite load_entries_lookup in Hi.
  destruct (store !! i) as [g|] eqn:Hg; [|discriminate].
  injection Hi as <-. unfold array_at. cbn [features entry_of]. rewrite Hh.
  rewrite lookup_app_r by lia.
  replace (length h + i - length h)%nat with i by lia.
  rewrite list_lookup_fmap, Hg. cbn.
  unfold wf_store in Hst. rewrite forallb_forall in Hst. apply Hst.
  apply list_elem_of_In. eapply list_elem_of_lookup_2; eauto.
Qed.

(** X1. [__init__] with a batch size other than 0 returns after it has
    loaded the whole store: one record per group, in store order; record
    [i] carries the key of group [i] as its file name, its [is_hotword]
    attribute reduced modulo 256 as its label, and refers to an array of its
    own, allocated at address [len(heap) + i] and holding the group's
    payload. Objects that were on the heap before are left as they were,
    and when every payload has rows that agree with its shape the loader is
    well formed. *)
Theorem init_loads_store (store : list h5group) (bs nf : Z) (sh : bool)
    (w0 : world) :
  bs <> 0 ->
  exists w,
    __init__ store bs nf sh w0 = (w, Ok tt) /\
    length (dataset (self w)) = length store /\
    (forall (i : nat) (g : h5group),
       store !! i = Some g ->
       exists e,
         dataset (self w) !! i = Some e /\
         file_name e = key g /\
         label e = is_hotword g mod 256 /\
         features e = (length (heap w0) + i)%nat /\
         array_at w (features e) = Some (payload g)) /\
    (forall l, (l < length (heap w0))%nat -> heap w !! l = heap w0 !! l) /\
    length (heap w) = (length (heap w0) + length store)%nat /\
    (wf_store store = true -> wf_world w = true).
Proof.
  intros Hbs. eexists. split; [apply init_run; exact Hbs|].
  cbn [self dataset heap]. split; [apply load_entries_length|].
  split; [|split; [|split]].
  - intros i g Hg. exists (entry_of (length (heap w0) + i) g).
    split; [now rewrite load_entries_lookup, Hg|].
    repeat split. unfold array_at. cbn [heap features entry_of].
    rewrite lookup_app_r by lia.
    replace (length (heap w0) + i - length (heap w0))%nat with i by lia.
    now rewrite list_lookup_fmap, Hg.
  - intros l Hl. now rewrite lookup_app_l.
  - now rewrite length_app, length_map.
  - intros Hst. now apply (wf_store_world store (heap w0)).
Qed.

Lemma init_loads_store_witness :
  exists w,
    __init__ sample_store 2 40 false blank_world = (w, Ok tt) /\
    length (dataset (self w)) = 5%nat /\
    wf_world w = true.
Proof.
  destruct (init_loads_store sample_store 2 40 false blank_world)
    as (w & Hrun & Hlen & _ & _ & _ & Hwf); [lia|].
  exists w. split; [exact Hrun|]. split; [exact Hlen|].
  apply Hwf. reflexivity.
Defined.

(** X2. Loading and reading back: on a loader built without shuffling,
    [get_filenames] returns the keys of the store in store order,
    [get_labels] the [is_hotword] attributes (as [uint8]) in the same order,
    and [number_of_examples] the number of groups. *)
Theorem init_then_accessors (store : list h5group) (bs nf : Z) (w0 : world) :
  bs <> 0 ->
  exists w,
    __init__ store bs nf false w0 = (w, Ok tt) /\
    get_filenames w = (w, Ok (map key store)) /\
    get_labels w = (w, Ok (map (fun g => is_hotword g mod 256) store)) /\
    number_of_examples w = (w, Ok (Z.of_nat (length store))).
Proof.
  intros Hbs. eexists. split; [apply init_run; exact Hbs|].
  match goal with |- get_filenames ?w = _ /\ _ =>
    destruct (accessors_labels_filenames_run w) as [Hl Hf] end.
  cbn [self shuffle dataset] in Hl, Hf.
  rewrite Hf, Hl. split; [|split].
  - do 2 f_equal. now apply load_entries_map.
  - do 2 f_equal. now apply load_entries_map.
  - unfold number_of_examples. rewrite bind_gets. cbn [self dataset].
    now rewrite load_entries_length.
Qed.

Lemma init_then_accessors_witness :
  exists w,
    __init__ sample_store 2 40 false blank_world = (w, Ok tt) /\
    get_filenames w = (w, Ok ["a"; "b"; "c"; "d"; "e"]%string) /\
    get_labels w = (w, Ok [0; 1; 1; 0; 1]).
Proof.
  destruct (init_then_accessors sample_store 2 40 blank_world)
    as (w & Hrun & Hf & Hl & _); [lia|].
  exists w. split; [exact Hrun|]. split; [exact Hf|exact Hl].
Defined.

(** X3. On a freshly built loader whose [is_hotword] attributes fit a
    [uint8], [number_of_wakewords] returns exactly the number of records
    with label 1 that the record list holds. *)
Theorem number_of_wakewords_counts_positives (store : list h5group) (bs nf : Z)
    (sh : bool) (w0 : world) :
  bs <> 0 ->
  Forall (fun g => 0 <= is_hotword g < 256) store ->
  exists w,
    __init__ store bs nf sh w0 = (w, Ok tt) /\
    number_of_wakewords w = (w, Ok (count_wakewords (dataset (self w)))).
Proof.
  intros Hbs Hst. eexists. split; [apply init_run; exact Hbs|].
  unfold number_of_wakewords, gets. cbn [self num_wakewords dataset].
  now rewrite load_entries_count.
Qed.

Lemma number_of_wakewords_counts_positives_witness :
  exists w,
    __init__ sample_store 2 40 false blank_world = (w, Ok tt) /\
    number_of_wakewords w = (w, Ok (count_wakewords (dataset (self w)))).
Proof.
  apply (number_of_wakewords_counts_positives sample_store 2 40 false
           blank_world).
  - lia.
  - repeat constructor; cbn; lia.
Defined.

(** X4. With [batch_size = 0] the constructor raises [ZeroDivisionError],
    and only after the whole store has been read: every payload has been
    allocated and the record list has been filled by then. *)
Theorem init_zero_batch_size (store : list h5group) (nf : Z) (sh : bool)
    (w0 : world) :
  exists w,
    __init__ store 0 nf sh w0 = (w, Raise ZeroDivisionError) /\
    length (heap w) = (length (heap w0) + length store)%nat /\
    dataset (self w) = load_entries (length (heap w0)) store /\
    batch_size (self w) = 0 /\
    num_batches (self w) = num_batches (self w0).
Proof.
  eexists. split.
  - unfold __init__. erewrite bind_ok by apply preload_data_run.
    rewrite !bind_modify, bind_number_of_examples.
    unfold py_floordiv. cbn [Z.eqb]. rewrite bind_lift_raise. reflexivity.
  - cbn. rewrite length_app, length_map. repeat split.
Qed.

(** X5. The script's entry point builds its loader with batches of 32 and
    without shuffling: on every store it returns, [__len__] is the number of
    groups divided by 32, rounded down, and the accessors are available and
    give the keys in store order. *)
Theorem main_builds_default_loader (store : list h5group) (w0 : world) :
  exists w,
    main store w0 = (w, Ok tt) /\
    __len__ w = (w, Ok (Z.of_nat (length store) / 32)) /\
    get_filenames w = (w, Ok (map key store)) /\
    batch_size (self w) = 32 /\
    num_features (self w) = 40 /\
    shuffle (self w) = false.
Proof.
  eexists. split; [apply init_run; lia|].
  match goal with |- _ /\ get_filenames ?w = _ /\ _ =>
    destruct (accessors_labels_filenames_run w) as [_ Hf] end.
  cbn [self shuffle dataset] in Hf. rewrite Hf.
  split; [reflexivity|]. split; [|repeat split].
  do 2 f_equal. now apply load_entries_map.
Qed.

(** ** Batch retrieval outside the range of batches *)

Lemma py_getitem_neg {A} (l : list A) (i : Z) (x : A) :
  - Z.of_nat (length l) <= i < 0 ->
  l !! Z.to_nat (Z.of_nat (length l) + i) = Some x ->
  py_getitem l i = Ok x.
Proof.
  intros Hi Hx. unfold py_getitem, py_index.
  destruct (Z.leb_spec 0 i); [lia|]. cbn [andb].
  destruct (Z.leb_spec (- Z.of_nat (length l)) i); [|lia].
  destruct (Z.ltb_spec i 0); [|lia]. cbn [andb]. now rewrite Hx.
Qed.

Lemma py_getitem_out_of_range {A} (l : list A) (i : Z) :
  Z.of_nat (length l) <= i \/ i < - Z.of_nat (length l) ->
  py_getitem l i = Raise IndexError.
Proof.
  intros Hi. unfold py_getitem, py_index.
  destruct (Z.leb_spec 0 i); destruct (Z.ltb_spec i (Z.of_nat (length l)));
    cbn [andb]; try lia.
  - destruct (Z.ltb_spec i 0); [lia|]. now rewrite andb_false_r.
  - destruct (Z.leb_spec (- Z.of_nat (length l)) i); [lia|]. reflexivity.
Qed.

Lemma comprehension_raise {A B} (f : A -> M B) (l1 l2 : list A) (x : A)
    (e : exn) (w : world) :
  Forall (fun y => exists b, f y w = (w, Ok b)) l1 ->
  f x w = (w, Raise e) ->
  comprehension (l1 ++ x :: l2) f w = (w, Raise e).
Proof.
  intros Hl Hx. induction Hl as [|y l1 [b Hy] _ IH]; cbn [app comprehension].
  - now rewrite (bind_raise _ _ w w e).
  - rewrite (bind_ok _ _ w w b) by exact Hy.
    now rewrite (bind_raise _ _ w w e).
Qed.

Lemma np_arange_split (a b : Z) (k : nat) :
  (k < Z.to_nat (b - a))%nat ->
  exists l2,
    np_arange a b = np_arange a (a + Z.of_nat k) ++ (a + Z.of_nat k) :: l2.
Proof.
  intros Hk. unfold np_arange.
  replace (Z.to_nat (b - a)) with (k + S (Z.to_nat (b - a) - S k))%nat by lia.
  rewrite seq_app, map_app. cbn [seq map Nat.add].
  replace (Z.to_nat (a + Z.of_nat k - a)) with k by lia.
  eexists. reflexivity.
Qed.

Lemma np_arange_empty (a b : Z) : b <= a -> np_arange a b = [].
Proof.
  intros H. unfold np_arange. now replace (Z.to_nat (b - a)) with O by lia.
Qed.

Lemma np_arange_elem (a b i : Z) : i ∈ np_arange a b -> a <= i < b.
Proof.
  unfold np_arange. intros H. apply list_elem_of_fmap in H as (j & -> & Hj).
  apply elem_of_seq in Hj. lia.
Qed.

(** The first position of the index range that the record list cannot
    serve decides: [IndexError], and nothing has been allocated. *)
Lemma getitem_index_error (w : world) (index : Z) (k : nat) :
  (k < Z.to_nat (batch_size (self w)))%nat ->
  0 <= batch_size (self w) * index ->
  ((0 < k)%nat ->
   batch_size (self w) * index + Z.of_nat k
   <= Z.of_nat (length (dataset (self w)))) ->
  (Z.of_nat (length (dataset (self w)))
   <= batch_size (self w) * index + Z.of_nat k) ->
  __getitem__ index w = (w, Raise IndexError).
Proof.
  intros Hk Hlo Hpre Hbad. unfold __getitem__. rewrite bind_gets. cbn zeta.
  destruct (np_arange_split (batch_size (self w) * index)
              (batch_size (self w) * index + batch_size (self w)) k)
    as [l2 ->]; [lia|].
  erewrite bind_raise; [reflexivity|].
  apply comprehension_raise.
  - apply Forall_forall. intros i Hi. apply np_arange_elem in Hi.
    destruct (lookup_lt_is_Some_2 (dataset (self w)) (Z.to_nat i)) as [e He];
      [lia|].
    exists (features e).
    erewrite bind_ok; [reflexivity|].
    rewrite dataset_at_run. f_equal.
    replace i with (Z.of_nat (Z.to_nat i)) at 1 by lia.
    now apply py_getitem_nat.
  - erewrite bind_raise; [reflexivity|].
    rewrite dataset_at_run. f_equal. apply py_getitem_out_of_range. lia.
Qed.

(** X6. A batch index at or beyond [num_batches] is not served: on a loader
    with a positive batch size whose [num_batches] is the floor of the
    record count over the batch size, [__getitem__] raises [IndexError] for
    every such index whose index range NumPy builds as an int64 array (both
    ends of the range are int64 values, at most 2^20 indices), also when a
    trailing partial batch exists, and leaves the world as it was. So does
    an index so far below zero that its range starts before the first
    record counted from the end. *)
Theorem getitem_out_of_range (w : world) (index : Z) :
  0 < batch_size (self w) ->
  num_batches (self w)
  = Z.of_nat (length (dataset (self w))) / batch_size (self w) ->
  arange_is_int64 (batch_size (self w) * index)
                  (batch_size (self w) * index + batch_size (self w)) = true ->
  num_batches (self w) <= index \/
  batch_size (self w) * index < - Z.of_nat (length (dataset (self w))) ->
  __getitem__ index w = (w, Raise IndexError).
Proof.
  intros Hbs Hnb _ [Hhi|Hlo].
  - pose proof (Z.mul_succ_div_gt (Z.of_nat (length (dataset (self w))))
                  (batch_size (self w)) Hbs) as Hgt.
    pose proof (Z.div_pos (Z.of_nat (length (dataset (self w))))
                  (batch_size (self w)) ltac:(lia) Hbs) as Hge.
    rewrite <- Hnb in Hgt, Hge.
    assert (batch_size (self w) * Z.succ (num_batches (self w))
            <= batch_size (self w) * Z.succ index) as Hm
      by (apply Z.mul_le_mono_nonneg_l; lia).
    assert (0 <= batch_size (self w) * index) as H0
      by (apply Z.mul_nonneg_nonneg; lia).
    apply (getitem_index_error w index
             (Z.to_nat (Z.max 0 (Z.of_nat (length (dataset (self w)))
                                 - batch_size (self w) * index)))); lia.
  - unfold __getitem__. rewrite bind_gets. cbn zeta.
    destruct (np_arange_split (batch_size (self w) * index)
                (batch_size (self w) * index + batch_size (self w)) 0)
      as [l2 ->]; [lia|].
    erewrite bind_raise; [reflexivity|].
    apply comprehension_raise.
    + rewrite np_arange_empty by lia. constructor.
    + erewrite bind_raise; [reflexivity|].
      rewrite dataset_at_run. f_equal. apply py_getitem_out_of_range. lia.
Qed.

Lemma getitem_out_of_range_witness :
  __getitem__ 2 sample_world = (sample_world, Raise IndexError) /\
  __getitem__ (-3) sample_world = (sample_world, Raise IndexError).
Proof.
  split.
  - apply (getitem_out_of_range sample_world 2); [now vm_compute..|].
    left. now vm_compute.
  - apply (getitem_out_of_range sample_world (-3)); [now vm_compute..|].
    right. now vm_compute.
Defined.

(** A batch size of zero or less gives an empty index range, and the
    maximum of no lengths is a [ValueError]. *)
Lemma getitem_nonpositive_batch_size (w : world) (index : Z) :
  batch_size (self w) <= 0 ->
  __getitem__ index w = (w, Raise ValueError).
Proof.
  intros Hbs. unfold __getitem__. rewrite bind_gets. cbn zeta.
  rewrite np_arange_empty by lia. reflexivity.
Qed.

(** X7. The constructor does not reject a negative batch size: it returns,
    with a [num_batches] that is zero or negative, and every [__getitem__]
    on the loader it built raises [ValueError], for the index range is
    empty and [max] is applied to no lengths; the world is left as it
    was. *)
Theorem negative_batch_size_accepted (store : list h5group) (bs nf : Z)
    (sh : bool) (w0 : world) (index : Z) :
  bs < 0 ->
  exists w,
    __init__ store bs nf sh w0 = (w, Ok tt) /\
    (exists n, __len__ w = (w, Ok n) /\ n <= 0) /\
    __getitem__ index w = (w, Raise ValueError).
Proof.
  intros Hbs. eexists. split; [apply init_run; lia|]. split.
  - eexists. split; [reflexivity|]. cbn [self num_batches].
    pose proof (Z.div_mod (Z.of_nat (length store)) bs ltac:(lia)) as Hdm.
    pose proof (Z.mod_neg_bound (Z.of_nat (length store)) bs Hbs) as Hr.
    nia.
  - apply getitem_nonpositive_batch_size. cbn. lia.
Qed.

Lemma negative_batch_size_accepted_witness :
  exists w,
    __init__ sample_store (-2) 40 false blank_world = (w, Ok tt) /\
    (exists n, __len__ w = (w, Ok n) /\ n <= 0) /\
    __getitem__ 0 w = (w, Raise ValueError).
Proof.
  apply (negative_batch_size_accepted sample_store (-2) 40 false blank_world 0).
  lia.
Defined.

(** ** Batch retrieval over any list of records *)

Lemma widths_fit_in_arrays (w : world) (es : list entry) (a0 : ndarray2)
    (rest : list ndarray2) :
  widths_fit_in w es = true ->
  omap (fun e => array_at w (features e)) es = a0 :: rest ->
  Forall (fun a => (shape1 a <= shape1 a0)%nat)
         (omap (fun e => array_at w (features e)) es).
Proof.
  intros Hfit Harrs. unfold widths_fit_in in Hfit.
  destruct es as [|e0 b]; [discriminate|].
  destruct (array_at w (features e0)) as [a0'|] eqn:E0; [|discriminate].
  assert (a0' = a0) as -> by (cbn in Harrs; rewrite E0 in Harrs; congruence).
  rewrite forallb_forall in Hfit. apply Forall_forall. intros a Ha.
  apply list_elem_of_omap in Ha as (e & He & Ea).
  specialize (Hfit e (proj1 (list_elem_of_In _ _) He)).
  rewrite Ea in Hfit. now apply Nat.leb_le.
Qed.

(** [__getitem__] on whatever records its index range selects. *)
Lemma getitem_run_entries (w : world) (index : Z) (es : list entry) :
  wf_world w = true ->
  Forall2 (fun i e => py_getitem (dataset (self w)) i = Ok e)
          (np_arange (batch_size (self w) * index)
                     (batch_size (self w) * index + batch_size (self w))) es ->
  es <> [] ->
  es ⊆ dataset (self w) ->
  widths_fit_in w es = true ->
  exists a0 rest L,
    omap (fun e => array_at w (features e)) es = a0 :: rest /\
    py_max (map shape0 (omap (fun e => array_at w (features e)) es)) = Ok L /\
    __getitem__ index w
    = (set_heap (heap w ++
                 [Arr3 {| dim0 := length es; dim1 := L; dim2 := shape1 a0;
                          slots := map (pad_slot L (shape1 a0))
                                     (omap (fun e => array_at w (features e))
                                           es) |}]) w,
       Ok (length (heap w), map label es)).
Proof.
  intros Hwf Hidxs Hne Hsub Hfit.
  pose proof (wf_world_arrays w es Hwf Hsub) as H2.
  destruct (omap (fun e => array_at w (features e)) es) as [|a0 rest] eqn:Harrs.
  { apply Forall2_length in H2. destruct es; [congruence|discriminate]. }
  destruct (py_max_nonempty (map shape0 (a0 :: rest))) as [L HL]; [discriminate|].
  exists a0, rest, L. split; [reflexivity|]. split; [exact HL|].
  unfold __getitem__.
  erewrite bind_ok by reflexivity. cbn zeta.
  erewrite bind_ok; cycle 1.
  { eapply comprehension_Forall2 with (g := features); [exact Hidxs|].
    intros i e Hi. erewrite bind_ok by (rewrite dataset_at_run, Hi; reflexivity).
    reflexivity. }
  erewrite bind_ok; cycle 1.
  { eapply comprehension_Forall2 with (g := label); [exact Hidxs|].
    intros i e Hi. erewrite bind_ok by (rewrite dataset_at_run, Hi; reflexivity).
    reflexivity. }
  erewrite bind_ok; cycle 1.
  { eapply pad_features_spec with (arrs := a0 :: rest); [|reflexivity|exact HL|].
    - apply Forall2_fmap_l. eapply Forall2_impl; [exact H2|].
      intros e a [Ha _]. now apply array_at_heap.
    - apply py_max_spec in HL as [_ HL]. rewrite Forall_fmap in HL.
      pose proof (widths_fit_in_arrays w es a0 rest Hfit Harrs) as Hw.
      rewrite Harrs in Hw.
      apply Forall2_Forall_r with (Q := wf_array2) in H2;
        [|apply Forall_true; tauto].
      rewrite Forall_forall in HL, Hw, H2. apply Forall_forall.
      intros a Ha. unfold fits. specialize (HL a Ha). cbn in HL. auto. }
  now rewrite length_map.
Qed.

Lemma batch_from_end_subseteq (w : world) (index : Z) :
  batch_from_end w index ⊆ dataset (self w).
Proof.
  unfold batch_from_end. intros e He.
  apply list_elem_of_lookup in He as [k Hk].
  apply lookup_take_Some in Hk as [Hk _]. rewrite lookup_drop in Hk.
  eapply list_elem_of_lookup_2; eauto.
Qed.

(** X8. A negative batch index is not rejected: while its index range
    [batch_size * index .. batch_size * index + batch_size - 1] stays within
    the record list counted from the end, [__getitem__] returns the
    batch_size records at positions
    [len + batch_size * index + k], k = 0 .. batch_size - 1, padded like
    any other batch; these need not be one of the batches counted by
    [__len__]. *)
Theorem getitem_negative_index (w : world) (index : Z) :
  wf_world w = true ->
  0 < batch_size (self w) ->
  index < 0 ->
  0 <= Z.of_nat (length (dataset (self w))) + batch_size (self w) * index ->
  widths_fit_in w (batch_from_end w index) = true ->
  length (batch_from_end w index) = Z.to_nat (batch_size (self w)) /\
  (forall k : nat,
     (k < Z.to_nat (batch_size (self w)))%nat ->
     batch_from_end w index !! k
     = dataset (self w)
         !! (Z.to_nat (Z.of_nat (length (dataset (self w)))
                       + batch_size (self w) * index) + k)%nat) /\
  exists a0 rest L P,
    omap (fun e => array_at w (features e)) (batch_from_end w index)
    = a0 :: rest /\
    py_max (map shape0 (a0 :: rest)) = Ok L /\
    P = {| dim0 := Z.to_nat (batch_size (self w)); dim1 := L;
           dim2 := shape1 a0;
           slots := map (pad_slot L (shape1 a0)) (a0 :: rest) |} /\
    __getitem__ index w
    = (set_heap (heap w ++ [Arr3 P]) w,
       Ok (length (heap w), map label (batch_from_end w index))).
Proof.
  intros Hwf Hbs Hneg Hlo Hfit.
  assert (batch_size (self w) * index + batch_size (self w) <= 0) as Hhi.
  { replace (batch_size (self w) * index + batch_size (self w))
      with (batch_size (self w) * (index + 1)) by ring.
    apply Z.mul_nonneg_nonpos; lia. }
  assert (length (batch_from_end w index) = Z.to_nat (batch_size (self w)))
    as Hlen.
  { unfold batch_from_end. rewrite length_take, length_drop. lia. }
  assert (forall k : nat,
     (k < Z.to_nat (batch_size (self w)))%nat ->
     batch_from_end w index !! k
     = dataset (self w)
         !! (Z.to_nat (Z.of_nat (length (dataset (self w)))
                       + batch_size (self w) * index) + k)%nat) as Hlook.
  { intros k Hk. unfold batch_from_end.
    rewrite lookup_take_lt by exact Hk. now rewrite lookup_drop. }
  split; [exact Hlen|]. split; [exact Hlook|].
  destruct (getitem_run_entries w index (batch_from_end w index) Hwf)
    as (a0 & rest & L & Harrs & HL & Hrun).
  - apply Forall2_same_length_lookup_2.
    + rewrite np_arange_length, Hlen. f_equal. lia.
    + intros k i e Hi He.
      assert (k < Z.to_nat (batch_size (self w)))%nat as Hk
        by (apply lookup_lt_Some in He; now rewrite Hlen in He).
      rewrite np_arange_lookup in Hi by lia. injection Hi as <-.
      rewrite Hlook in He by exact Hk.
      apply py_getitem_neg; [lia|].
      rewrite <- He. f_equal. lia.
  - intros E. rewrite E in Hlen. cbn in Hlen. lia.
  - apply batch_from_end_subseteq.
  - exact Hfit.
  - exists a0, rest, L. eexists. rewrite Harrs in HL, Hrun.
    split; [exact Harrs|]. split; [exact HL|]. split; [reflexivity|].
    rewrite Hrun, Hlen. reflexivity.
Qed.

Lemma getitem_negative_index_witness :
  exists P,
    __getitem__ (-1) sample_world
    = (set_heap (heap sample_world ++ [Arr3 P]) sample_world,
       Ok (length (heap sample_world),
           map label (batch_from_end sample_world (-1)))) /\
    map file_name (batch_from_end sample_world (-1)) = ["d"; "e"]%string.
Proof.
  destruct (getitem_negative_index sample_world (-1))
    as (_ & _ & a0 & rest & L & P & _ & _ & _ & Hrun);
    [now vm_compute..|].
  exists P. split; [exact Hrun|]. now vm_compute.
Defined.

(** X9. Batches and the label accessor agree: on a loader that does not
    shuffle, the labels that [__getitem__] returns for a batch index in
    range are the slice
    [batch_size * index : batch_size * index + batch_size] of the list that
    [get_labels] returns. *)
Theorem getitem_labels_slice_of_get_labels (w : world) (index : Z) :
  wf_world w = true ->
  0 < batch_size (self w) ->
  num_batches (self w)
  = Z.of_nat (length (dataset (self w))) / batch_size (self w) ->
  0 <= index < num_batches (self w) ->
  widths_fit w index = true ->
  shuffle (self w) = false ->
  exists (X : nat) (y labels : list Z),
    snd (__getitem__ index w) = Ok (X, y) /\
    get_labels w = (w, Ok labels) /\
    y = take (Z.to_nat (batch_size (self w)))
             (drop (Z.to_nat (batch_size (self w) * index)) labels) /\
    length y = Z.to_nat (batch_size (self w)).
Proof.
  intros Hwf Hbs Hnb Hidx Hfit Hsh.
  destruct (getitem_run w index Hwf Hbs Hnb Hidx Hfit)
    as (a0 & rest & L & _ & _ & Hrun).
  destruct (accessors_labels_filenames_run w) as [Hl _]. rewrite Hsh in Hl.
  eexists _, _, _. rewrite Hrun. split; [reflexivity|]. split; [exact Hl|].
  split.
  - unfold batch. now rewrite fmap_take, fmap_drop.
  - rewrite length_map. now apply batch_length.
Qed.

Lemma getitem_labels_slice_of_get_labels_witness :
  exists (X : nat) (y labels : list Z),
    snd (__getitem__ 1 sample_world) = Ok (X, y) /\
    get_labels sample_world = (sample_world, Ok labels) /\
    y = take 2 (drop 2 labels).
Proof.
  destruct (getitem_labels_slice_of_get_labels sample_world 1)
    as (X & y & labels & Hrun & Hl & Hy & _); [now vm_compute..|].
  exists X, y, labels. split; [exact Hrun|]. split; [exact Hl|exact Hy].
Defined.

(** ** Fetching a batch again *)

Lemma array_at_extend (w : world) (t : list ndarray) (l : nat) (a : ndarray2) :
  array_at w l = Some a ->
  array_at (set_heap (heap w ++ t) w) l = Some a.
Proof.
  rewrite !array_at_heap. cbn [set_heap heap]. apply lookup_app_l_Some.
Qed.

Lemma wf_world_extend (w : world) (t : list ndarray) :
  wf_world w = true -> wf_world (set_heap (heap w ++ t) w) = true.
Proof.
  unfold wf_world. cbn [set_heap self]. rewrite !forallb_forall.
  intros H e He. specialize (H e He).
  destruct (array_at w (features e)) as [a|] eqn:Ea; [|discriminate].
  now rewrite (array_at_extend w t _ a Ea).
Qed.

Lemma batch_arrays_extend (w : world) (t : list ndarray) (index : Z) :
  wf_world w = true ->
  batch_arrays (set_heap (heap w ++ t) w) index = batch_arrays w index.
Proof.
  intros Hwf. unfold batch_arrays.
  change (batch (set_heap (heap w ++ t) w) index) with (batch w index).
  apply list_omap_ext, Forall_Forall2_diag, Forall_forall. intros e He.
  apply batch_subseteq in He.
  unfold wf_world in Hwf. rewrite forallb_forall in Hwf.
  specialize (Hwf e (proj1 (list_elem_of_In _ _) He)).
  destruct (array_at w (features e)) as [a|] eqn:Ea; [|discriminate].
  now apply array_at_extend.
Qed.

Lemma widths_fit_extend (w : world) (t : list ndarray) (index : Z) :
  widths_fit w index = true ->
  widths_fit (set_heap (heap w ++ t) w) index = true.
Proof.
  unfold widths_fit.
  change (batch (set_heap (heap w ++ t) w) index) with (batch w index).
  destruct (batch w index) as [|e0 b]; [reflexivity|].
  destruct (array_at w (features e0)) as [a0|] eqn:E0; [|discriminate].
  rewrite (array_at_extend w t _ a0 E0). rewrite !forallb_forall.
  intros H e He. specialize (H e He).
  destruct (array_at w (features e)) as [a|] eqn:Ea; [|discriminate].
  now rewrite (array_at_extend w t _ a Ea).
Qed.

(** X10. Fetching the same batch twice in a row gives the same labels and
    two tensors with the same contents at two different addresses: every
    call allocates, and the tensor of the first call is still intact after
    the second. *)
Theorem getitem_repeatable (w : world) (index : Z) :
  wf_world w = true ->
  0 < batch_size (self w) ->
  num_batches (self w)
  = Z.of_nat (length (dataset (self w))) / batch_size (self w) ->
  0 <= index < num_batches (self w) ->
  widths_fit w index = true ->
  exists (w1 w2 : world) (X1 X2 : nat) (y : list Z) (P : ndarray3),
    __getitem__ index w = (w1, Ok (X1, y)) /\
    __getitem__ index w1 = (w2, Ok (X2, y)) /\
    X2 = S X1 /\
    heap w1 !! X1 = Some (Arr3 P) /\
    heap w2 !! X1 = Some (Arr3 P) /\
    heap w2 !! X2 = Some (Arr3 P) /\
    length (heap w2) = S (S (length (heap w))) /\
    self w2 = self w.
Proof.
  intros Hwf Hbs Hnb Hidx Hfit.
  destruct (getitem_run w index Hwf Hbs Hnb Hidx Hfit)
    as (a0 & rest & L & Harrs & HL & Hrun).
  set (P := {| dim0 := length (batch w index); dim1 := L; dim2 := shape1 a0;
               slots := map (pad_slot L (shape1 a0)) (batch_arrays w index) |})
    in Hrun.
  set (w1 := set_heap (heap w ++ [Arr3 P]) w) in Hrun.
  destruct (getitem_run w1 index) as (a0' & rest' & L' & Harrs' & HL' & Hrun').
  { now apply wf_world_extend. }
  { exact Hbs. }
  { exact Hnb. }
  { exact Hidx. }
  { now apply widths_fit_extend. }
  unfold w1 in Harrs', HL', Hrun'.
  rewrite (batch_arrays_extend w [Arr3 P] index Hwf) in Harrs', HL', Hrun'.
  rewrite Harrs in Harrs'. injection Harrs' as <- <-.
  rewrite HL in HL'. injection HL' as <-.
  change (batch (set_heap (heap w ++ [Arr3 P]) w) index) with (batch w index)
    in Hrun'.
  fold P in Hrun'. fold w1 in Hrun'.
  eexists w1, _, _, _, _, P. split; [exact Hrun|]. split; [exact Hrun'|].
  unfold w1. cbn [set_heap heap self].
  split; [rewrite length_app; cbn; lia|].
  split; [apply list_lookup_middle; reflexivity|].
  split; [apply lookup_app_l_Some, list_lookup_middle; reflexivity|].
  split; [apply list_lookup_middle; reflexivity|].
  split; [rewrite !length_app; cbn; lia|reflexivity].
Qed.

Lemma getitem_repeatable_witness :
  exists (w1 w2 : world) (X1 X2 : nat) (y : list Z),
    __getitem__ 0 sample_world = (w1, Ok (X1, y)) /\
    __getitem__ 0 w1 = (w2, Ok (X2, y)) /\
    X2 = S X1.
Proof.
  destruct (getitem_repeatable sample_world 0)
    as (w1 & w2 & X1 & X2 & y & P & H1 & H2 & HX & _); [now vm_compute..|].
  exists w1, w2, X1, X2, y. split; [exact H1|]. split; [exact H2|exact HX].
Defined.

(** ** What batch retrieval depends on *)

Section Indifferent.
Variable f : HeySnipsDataset -> HeySnipsDataset.

Lemma indifferent_ret {A} (a : A) : indifferent f (ret a).
Proof. intros w. reflexivity. Qed.

Lemma indifferent_lift {A} (r : result A) : indifferent f (lift r).
Proof. intros w. reflexivity. Qed.

Lemma indifferent_gets {A} (g : HeySnipsDataset -> A) :
  (forall s, g (f s) = g s) -> indifferent f (gets g).
Proof. intros H w. unfold gets. cbn. now rewrite H. Qed.

Lemma indifferent_read2 (l : nat) : indifferent f (read2 l).
Proof.
  intros w. unfold read2. cbn [with_self heap].
  destruct (heap w !! l) as [[a|a]|]; reflexivity.
Qed.

Lemma indifferent_read3 (l : nat) : indifferent f (read3 l).
Proof.
  intros w. unfold read3. cbn [with_self heap].
  destruct (heap w !! l) as [[a|a]|]; reflexivity.
Qed.

Lemma indifferent_alloc (a : ndarray) : indifferent f (alloc a).
Proof. intros w. reflexivity. Qed.

Lemma indifferent_write (l : nat) (a : ndarray) : indifferent f (write l a).
Proof. intros w. reflexivity. Qed.

Lemma indifferent_bind {A B} (c : M A) (k : A -> M B) :
  indifferent f c -> (forall a, indifferent f (k a)) ->
  indifferent f (bind c k).
Proof.
  intros Hc Hk w. unfold bind. rewrite Hc.
  destruct (c w) as [w1 [a|e]]; cbn [fst snd]; [apply Hk|reflexivity].
Qed.

Lemma indifferent_for {A} (l : list A) (body : A -> M unit) :
  (forall x, indifferent f (body x)) -> indifferent f (for_ l body).
Proof.
  intros H. induction l as [|x l IH]; cbn [for_].
  - apply indifferent_ret.
  - apply indifferent_bind; [apply H|intros _; exact IH].
Qed.

Lemma indifferent_comprehension {A B} (l : list A) (g : A -> M B) :
  (forall x, indifferent f (g x)) -> indifferent f (comprehension l g).
Proof.
  intros H. induction l as [|x l IH]; cbn [comprehension].
  - apply indifferent_ret.
  - apply indifferent_bind; [apply H|intros y].
    apply indifferent_bind; [exact IH|intros ys]. apply indifferent_ret.
Qed.

Lemma indifferent_pad_features (X : list nat) : indifferent f (pad_features X).
Proof.
  unfold pad_features.
  apply indifferent_bind.
  { apply indifferent_comprehension. intros x.
    apply indifferent_bind; [apply indifferent_read2|intros a].
    apply indifferent_ret. }
  intros lengths. apply indifferent_bind; [apply indifferent_lift|].
  intros max_length. apply indifferent_bind; [apply indifferent_lift|].
  intros x0. apply indifferent_bind; [apply indifferent_read2|].
  intros a0. apply indifferent_bind; [apply indifferent_alloc|].
  intros Xp. apply indifferent_bind; [|intros _; apply indifferent_ret].
  apply indifferent_for. intros [idx x].
  apply indifferent_bind; [apply indifferent_read2|intros a].
  apply indifferent_bind; [apply indifferent_read3|intros P].
  apply indifferent_bind; [apply indifferent_lift|intros P'].
  apply indifferent_write.
Qed.

Lemma indifferent_dataset_at (i : Z) :
  (forall s, dataset (f s) = dataset s) -> indifferent f (dataset_at i).
Proof.
  intros H. unfold dataset_at. apply indifferent_bind.
  - now apply indifferent_gets.
  - intros d. apply indifferent_lift.
Qed.

End Indifferent.

(** X11. [__getitem__] consults the record list, the batch size and the
    arrays, and nothing else: after any change to the other fields of the
    loader ([num_features], which is never compared with the data,
    [num_batches], [shuffle], [num_wakewords]) it returns or raises exactly
    as before and makes the same allocation. In particular the width of
    the tensor does not come from [num_features], and the index is not
    checked against [num_batches]. *)
Theorem getitem_ignores_other_fields
    (f : HeySnipsDataset -> HeySnipsDataset) (index : Z) (w : world) :
  (forall s, dataset (f s) = dataset s) ->
  (forall s, batch_size (f s) = batch_size s) ->
  __getitem__ index (with_self f w)
  = (with_self f (fst (__getitem__ index w)), snd (__getitem__ index w)).
Proof.
  intros Hd Hb. revert w. fold (indifferent f (__getitem__ index)).
  unfold __getitem__.
  apply indifferent_bind; [now apply indifferent_gets|intros bs]. cbn zeta.
  apply indifferent_bind.
  { apply indifferent_comprehension. intros i.
    apply indifferent_bind; [now apply indifferent_dataset_at|intros e].
    apply indifferent_ret. }
  intros X. apply indifferent_bind.
  { apply indifferent_comprehension. intros i.
    apply indifferent_bind; [now apply indifferent_dataset_at|intros e].
    apply indifferent_ret. }
  intros y. apply indifferent_bind; [apply indifferent_pad_features|].
  intros X'. apply indifferent_ret.
Qed.

Lemma getitem_ignores_other_fields_witness :
  __getitem__ 0 (with_self (set_num_features 13) sample_world)
  = (with_self (set_num_features 13) (fst (__getitem__ 0 sample_world)),
     snd (__getitem__ 0 sample_world)) /\
  __getitem__ 0 (with_self (set_num_batches 0) sample_world)
  = (with_self (set_num_batches 0) (fst (__getitem__ 0 sample_world)),
     snd (__getitem__ 0 sample_world)).
Proof.
  split.
  - apply (getitem_ignores_other_fields (set_num_features 13) 0 sample_world);
      reflexivity.
  - apply (getitem_ignores_other_fields (set_num_batches 0) 0 sample_world);
      reflexivity.
Defined.

(** ** Padding arrays of one shape *)

Lemma foldl_max_const (t : nat) (l : list nat) :
  Forall (fun x => x = t) l -> foldl Nat.max t l = t.
Proof.
  intros H. induction H as [|x l -> _ IH]; [reflexivity|].
  cbn [foldl]. now rewrite Nat.max_id.
Qed.

Lemma pad_slot_exact (a : ndarray2) :
  wf_array2 a -> pad_slot (shape0 a) (shape1 a) a = rows a.
Proof.
  intros [Hlen Hrows]. unfold pad_slot.
  assert (map (resize (shape1 a) zero32) (rows a) = rows a) as ->.
  { clear Hlen. induction Hrows as [|r l Hr _ IH]; [reflexivity|].
    cbn [map]. f_equal; [now apply resize_all_alt|exact IH]. }
  now apply resize_all_alt.
Qed.

(** X12. When all arrays have the same shape (t, c) nothing is padded: the
    tensor that [pad_features] allocates has shape (len(X), t, c) and its
    slots are the arrays themselves, row by row, in the order of [X]. *)
Theorem pad_features_equal_shapes (w : world) (X : list nat)
    (arrs : list ndarray2) (t c : nat) :
  X <> [] ->
  Forall2 (fun x a => heap w !! x = Some (Arr2 a)) X arrs ->
  Forall (fun a => wf_array2 a /\ shape0 a = t /\ shape1 a = c) arrs ->
  pad_features X w
  = (set_heap (heap w ++ [Arr3 {| dim0 := length X; dim1 := t; dim2 := c;
                                  slots := map rows arrs |}]) w,
     Ok (length (heap w))).
Proof.
  intros Hne HX Hall.
  destruct arrs as [|a0 rest].
  { apply Forall2_length in HX. destruct X; [congruence|discriminate]. }
  pose proof (Forall_inv Hall) as (Hwf0 & Ht0 & Hc0).
  rewrite (pad_features_spec w X (a0 :: rest) rest a0 t HX eq_refl).
  - rewrite Hc0. do 6 f_equal.
    apply Forall_fmap_ext_1. eapply Forall_impl; [exact Hall|].
    intros a (Hwf & <- & <-). now apply pad_slot_exact.
  - cbn [map py_max]. f_equal. rewrite Ht0. apply foldl_max_const.
    apply Forall_fmap. apply Forall_inv_tail in Hall.
    eapply Forall_impl; [exact Hall|]. now intros a (_ & Ht & _).
  - eapply Forall_impl; [exact Hall|].
    intros a (Hwf & Ht & Hc). unfold fits. split; [exact Hwf|]. lia.
Qed.

Lemma pad_features_equal_shapes_witness :
  pad_features [0; 1]%nat uniform_world
  = (set_heap (heap uniform_world ++
       [Arr3 {| dim0 := 2; dim1 := 2; dim2 := 3;
                slots := [replicate 2 (replicate 3 one32);
                          replicate 2 (replicate 3 two32)] |}]) uniform_world,
     Ok 2%nat).
Proof.
  apply (pad_features_equal_shapes uniform_world [0; 1]%nat
           [constant_array 2 3 one32; constant_array 2 3 two32] 2 3).
  - discriminate.
  - repeat constructor.
  - repeat constructor.
Defined.

(** ** Reshuffling between epochs *)

Lemma shuffle_from_advance {A} (i : nat) (x : list A) (w : world) :
  exists x',
    shuffle_from i x w = (set_np_random (advance i (np_random w)) w, Ok x') /\
    x' ≡ₚ x.
Proof.
  revert x w. induction i as [|i IH]; intros x w; cbn [shuffle_from].
  - exists x. split; [|reflexivity]. unfold ret, advance.
    rewrite Nat.add_0_r. now destruct w as [h [dr cu] s].
  - unfold bind, random_interval.
    destruct (IH (py_swap x (S i) (draws (np_random w) (cursor (np_random w))
                                   mod S (S i))%nat)
                 (set_np_random {| draws := draws (np_random w);
                                   cursor := S (cursor (np_random w)) |} w))
      as (x' & Hrun & Hperm).
    exists x'. split; [|rewrite Hperm; apply py_swap_Permutation].
    rewrite Hrun. unfold advance, set_np_random.
    cbn [heap np_random self draws cursor]. do 3 f_equal. lia.
Qed.

(** X13. [on_epoch_end] with the shuffle flag clear is a no-op: the world,
    random state included, is left exactly as it was. With the flag set it
    returns with the same records in a permuted order, none lost and none
    duplicated, after len(dataset) - 1 bounded draws from the random state
    (none for fewer than two records); the heap and the other fields of the
    loader are untouched. *)
Theorem on_epoch_end_reshuffles (w : world) :
  if shuffle (self w) then
    exists d',
      d' ≡ₚ dataset (self w) /\
      on_epoch_end w
      = ({| heap := heap w;
            np_random := advance (length (dataset (self w)) - 1) (np_random w);
            self := set_dataset d' (self w) |}, Ok tt)
  else on_epoch_end w = (w, Ok tt).
Proof.
  unfold on_epoch_end. rewrite bind_gets.
  destruct (shuffle (self w)); [|reflexivity].
  rewrite bind_gets.
  destruct (shuffle_from_advance (length (dataset (self w)) - 1)
              (dataset (self w)) w) as (d' & Hsh & Hp).
  exists d'. split; [exact Hp|].
  unfold np_random_shuffle. rewrite (bind_ok _ _ _ _ _ Hsh). reflexivity.
Qed.

Lemma on_epoch_end_reshuffles_witness :
  on_epoch_end sample_world = (sample_world, Ok tt) /\
  exists d',
    d' ≡ₚ dataset (self shuffling_world) /\
    on_epoch_end shuffling_world
    = ({| heap := heap shuffling_world;
          np_random := advance (length (dataset (self shuffling_world)) - 1)
                         (np_random shuffling_world);
          self := set_dataset d' (self shuffling_world) |}, Ok tt).
Proof.
  split.
  - pose proof (on_epoch_end_reshuffles sample_world) as H.
    assert (shuffle (self sample_world) = false) as E by now vm_compute.
    rewrite E in H. exact H.
  - pose proof (on_epoch_end_reshuffles shuffling_world) as H.
    assert (shuffle (self shuffling_world) = true) as E by now vm_compute.
    rewrite E in H. exact H.
Defined.

(** ** What pruning does to the record list *)

(** X14. Whatever the ratio and whether it returns or raises,
    [prune_wakewords] never invents or duplicates a record: the record list
    it leaves is a sub-multiset of the one it found, and it contains every
    record whose label is not 1 exactly as often as before. *)
Theorem prune_never_invents_records (keep_ratio : float64) (w : world) :
  dataset (self (fst (prune_wakewords keep_ratio w))) ⊆+ dataset (self w) /\
  others_of (dataset (self (fst (prune_wakewords keep_ratio w))))
  ≡ₚ others_of (dataset (self w)).
Proof.
  destruct (prune_run keep_ratio w) as (g1 & wk & Hwk & Hrun).
  destruct (keep_count keep_ratio (num_wakewords (self w))) as [k|e].
  - destruct Hrun as (g2 & d' & Hd' & ->).
    assert (dataset (self (fst
              match py_floordiv (Z.of_nat (length d')) (batch_size (self w)) with
              | Ok nb =>
                  ({| heap := heap w; np_random := g2;
                      self := set_num_batches nb (set_dataset d' (self w)) |},
                   Ok tt)
              | Raise e => (set_np_random g2 (with_dataset d' w), Raise e)
              end)) = d') as ->
      by (destruct (py_floordiv _ _); reflexivity).
    split.
    + etrans; [apply Permutation_submseteq, Hd'|].
      etrans; [apply submseteq_skips_l, sublist_submseteq, sublist_take|].
      apply Permutation_submseteq.
      etrans; [apply Permutation_app_head, Hwk|].
      apply wakewords_others_Permutation.
    + now apply (pruned_dataset_count _ _ wk k).
  - rewrite Hrun. cbn [fst set_np_random with_dataset self set_dataset dataset].
    split.
    + apply sublist_submseteq. unfold others_of. apply sublist_filter.
    + now rewrite others_of_others.
Qed.

(** X15. A pruning that raises while it computes the count (an infinite or
    NaN product) has already removed every positive record and does not
    recompute [num_batches]. When the records that are left do not fill
    the batches that were counted before, [__len__] still returns the old
    number although the last of these batches can no longer be served:
    [__getitem__] raises [IndexError] for it. *)
Theorem failed_prune_overstates_length (keep_ratio : float64) (w : world)
    (e : exn) :
  keep_count keep_ratio (num_wakewords (self w)) = Raise e ->
  0 < batch_size (self w) ->
  0 < num_batches (self w) ->
  Z.of_nat (length (others_of (dataset (self w))))
  < batch_size (self w) * num_batches (self w) ->
  exists w',
    prune_wakewords keep_ratio w = (w', Raise e) /\
    dataset (self w') = others_of (dataset (self w)) /\
    __len__ w' = (w', Ok (num_batches (self w))) /\
    __getitem__ (num_batches (self w) - 1) w' = (w', Raise IndexError).
Proof.
  intros Hk Hbs Hnb Hshort.
  destruct (prune_run keep_ratio w) as (g1 & wk & Hwk & Hrun).
  rewrite Hk in Hrun. eexists. split; [exact Hrun|].
  split; [reflexivity|]. split; [reflexivity|].
  set (w' := set_np_random g1 (with_dataset (others_of (dataset (self w))) w)).
  assert (batch_size (self w') = batch_size (self w)) as Eb by reflexivity.
  assert (dataset (self w') = others_of (dataset (self w))) as Ed
    by reflexivity.
  assert (0 <= batch_size (self w) * (num_batches (self w) - 1)) as H0
    by (apply Z.mul_nonneg_nonneg; lia).
  apply (getitem_index_error w' (num_batches (self w) - 1)
           (Z.to_nat (Z.max 0
              (Z.of_nat (length (others_of (dataset (self w))))
               - batch_size (self w) * (num_batches (self w) - 1)))));
    rewrite ?Eb, ?Ed; lia.
Qed.

Lemma failed_prune_overstates_length_witness :
  exists w',
    prune_wakewords b64_huge sample_world = (w', Raise OverflowError) /\
    __len__ w' = (w', Ok 2) /\
    __getitem__ 1 w' = (w', Raise IndexError).
Proof.
  destruct (failed_prune_overstates_length b64_huge sample_world OverflowError)
    as (w' & Hrun & _ & Hlen & Hget); [now vm_compute..|].
  exists w'. split; [exact Hrun|]. split; [exact Hlen|exact Hget].
Defined.

(** ** The count for ratio 1.0 *)

Lemma keep_count_lower (mk : positive) (ek nw k : Z) :
  -52 <= ek -> 2 ^ 52 <= Z.pos mk ->
  0 <= nw < 2 ^ 53 ->
  keep_count (S754_finite false mk ek) nw = Ok k -> nw <= k.
Proof.
  intros Hek Hmk Hnw. unfold keep_count, py_float_of_int.
  destruct (Z.eq_dec nw 0) as [->|Hne].
  { rewrite b64_of_Z_zero. cbn. intros [= <-]. lia. }
  destruct (b64_of_Z_exact nw ltac:(lia)) as (mf & ef & -> & Hef & Hmf).
  unfold b64_mul. cbn [SFmul xorb].
  assert (nw * 2 ^ (52 + 52) <= Z.pos (mk * mf) * 2 ^ (ek + ef + (52 + 52))) as Hx.
  { replace (ek + ef + (52 + 52)) with ((ek + 52) + (ef + 52)) by lia.
    rewrite Pos2Z.inj_mul, (Z.pow_add_r 2 (ek + 52)),
      (Z.pow_add_r 2 52 52) by lia.
    replace (Z.pos mk * Z.pos mf * (2 ^ (ek + 52) * 2 ^ (ef + 52)))
      with ((Z.pos mk * 2 ^ (ek + 52)) * (Z.pos mf * 2 ^ (ef + 52))) by ring.
    rewrite Hmf.
    replace (nw * (2 ^ 52 * 2 ^ 52)) with (2 ^ 52 * (nw * 2 ^ 52)) by ring.
    apply Z.mul_le_mono_nonneg_r; [apply Z.mul_nonneg_nonneg; lia|].
    pose proof (pow2_pos (ek + 52) ltac:(lia)). nia. }
  destruct (round_lower false (mk * mf) (ek + ef) nw (52 + 52))
    as [[_ H0]|[->|(m & e & -> & He & Hle)]]; try lia.
  - cbn. discriminate.
  - rewrite (py_int_finite m e (52 + 52)) by lia. intros [= <-].
    apply Z.div_le_lower_bound; [apply pow2_pos; lia|].
    rewrite (Z.mul_comm _ nw). exact Hle.
Qed.

Lemma b64_one_mantissa (m : positive) :
  m = 4503599627370496%positive -> 2 ^ 52 <= Z.pos m.
Proof. intros ->. now vm_compute. Qed.

(** [int(1.0 * n)] is [n] for every count below 2^53. *)
Lemma keep_count_one (nw : Z) :
  0 <= nw < 2 ^ 53 -> keep_count b64_one nw = Ok nw.
Proof.
  intros Hnw.
  destruct (keep_count_unit_interval b64_one nw eq_refl eq_refl eq_refl Hnw)
    as (k & Hk & Hk01).
  rewrite Hk. f_equal.
  pose proof (keep_count_lower _ (-52) nw k ltac:(lia)
                (b64_one_mantissa _ eq_refl) Hnw Hk). lia.
Qed.

Lemma others_of_length (d : list entry) :
  Z.of_nat (length (others_of d)) = Z.of_nat (length d) - count_wakewords d.
Proof.
  pose proof (Permutation_length (wakewords_others_Permutation d)) as H.
  rewrite length_app in H. unfold count_wakewords. fold (wakewords_of d). lia.
Qed.

(** X16. [prune_wakewords(1.0)] discards nothing: on a loader that holds no
    more positive records than [num_wakewords] (any loader that has only
    been built, pruned and reshuffled) it returns, the record list is a
    permutation of the one before, and [number_of_examples] and
    [num_batches] are what they were for that list. *)
Theorem prune_one_keeps_everything (w : world) :
  0 <= num_wakewords (self w) < 2 ^ 53 ->
  count_wakewords (dataset (self w)) <= num_wakewords (self w) ->
  batch_size (self w) <> 0 ->
  exists w',
    prune_wakewords b64_one w = (w', Ok tt) /\
    dataset (self w') ≡ₚ dataset (self w) /\
    number_of_examples w'
    = (w', Ok (Z.of_nat (length (dataset (self w))))) /\
    __len__ w'
    = (w', Ok (Z.of_nat (length (dataset (self w))) / batch_size (self w))).
Proof.
  intros Hnw Hinv Hbs.
  destruct (prune_returns b64_one w _ (keep_count_one _ Hnw) Hbs)
    as (g & d' & wk & Hwk & Hd' & Hrun).
  assert (d' ≡ₚ dataset (self w)) as Hperm.
  { etrans; [exact Hd'|]. rewrite py_slice_to_all.
    - etrans; [apply Permutation_app_head, Hwk|].
      apply wakewords_others_Permutation.
    - rewrite (Permutation_length Hwk). unfold count_wakewords in Hinv.
      unfold wakewords_of. lia. }
  eexists. split; [exact Hrun|].
  unfold number_of_examples, __len__. rewrite bind_gets. unfold gets, ret.
  cbn [self set_num_batches set_dataset dataset num_batches].
  rewrite (Permutation_length Hperm). repeat split. exact Hperm.
Qed.

Lemma prune_one_keeps_everything_witness :
  exists w',
    prune_wakewords b64_one sample_world = (w', Ok tt) /\
    number_of_examples w' = (w', Ok 5) /\
    __len__ w' = (w', Ok 2).
Proof.
  destruct (prune_one_keeps_everything sample_world)
    as (w' & Hrun & _ & Hn & Hl).
  - split; now vm_compute.
  - now vm_compute.
  - now vm_compute.
  - exists w'. split; [exact Hrun|]. split; [exact Hn|exact Hl].
Defined.

(** X17. The record count after pruning: for every ratio in [0, 1],
    [prune_wakewords] returns and leaves len - p + min(k, p) records, where
    len and p are the numbers of records and of positive records it found
    and k = int(keep_ratio * num_wakewords); [number_of_examples] returns
    that number and [__len__] its floor quotient by the batch size. *)
Theorem prune_record_count (w : world) (keep_ratio : float64) :
  b64_valid keep_ratio = true ->
  b64_le b64_zero keep_ratio = true ->
  b64_le keep_ratio b64_one = true ->
  0 <= num_wakewords (self w) < 2 ^ 53 ->
  batch_size (self w) <> 0 ->
  exists (k : Z) (w' : world),
    keep_count keep_ratio (num_wakewords (self w)) = Ok k /\
    prune_wakewords keep_ratio w = (w', Ok tt) /\
    number_of_examples w'
    = (w', Ok (Z.of_nat (length (dataset (self w)))
               - count_wakewords (dataset (self w))
               + Z.min k (count_wakewords (dataset (self w))))) /\
    __len__ w'
    = (w', Ok ((Z.of_nat (length (dataset (self w)))
                - count_wakewords (dataset (self w))
                + Z.min k (count_wakewords (dataset (self w))))
               / batch_size (self w))).
Proof.
  intros Hv H0 H1 Hnw Hbs.
  destruct (keep_count_unit_interval keep_ratio _ Hv H0 H1 Hnw) as (k & Hk & Hk01).
  destruct (prune_returns keep_ratio w k Hk Hbs)
    as (g & d' & wk & Hwk & Hd' & Hrun).
  assert (Z.of_nat (length d')
          = Z.of_nat (length (dataset (self w)))
            - count_wakewords (dataset (self w))
            + Z.min k (count_wakewords (dataset (self w)))) as Hlen.
  { rewrite (Permutation_length Hd'), length_app, Nat2Z.inj_add,
      others_of_length, py_slice_to_length, (Permutation_length Hwk).
    replace (k <? 0) with false by (symmetry; apply Z.ltb_ge; lia).
    reflexivity. }
  exists k. eexists. split; [exact Hk|]. split; [exact Hrun|].
  unfold number_of_examples, __len__. rewrite bind_gets. unfold gets, ret.
  cbn [self set_num_batches set_dataset dataset num_batches].
  rewrite Hlen. split; reflexivity.
Qed.

Lemma prune_record_count_witness :
  exists (w' : world),
    prune_wakewords b64_half sample_world = (w', Ok tt) /\
    number_of_examples w' = (w', Ok 3) /\
    __len__ w' = (w', Ok 1).
Proof.
  destruct (prune_record_count sample_world b64_half)
    as (k & w' & Hk & Hrun & Hn & Hl).
  - reflexivity.
  - reflexivity.
  - reflexivity.
  - split; now vm_compute.
  - now vm_compute.
  - exists w'. split; [exact Hrun|].
    assert (k = 1) as -> by (vm_compute in Hk; congruence).
    split; [rewrite Hn|rewrite Hl]; do 2 f_equal; now vm_compute.
Defined.
